(** * tsh: a tiny shell with job control -- job table, reaper, dispatcher

    Shallow embedding of [tsh.c].  The global job array [jobs], the counter
    [nextjid] and the flag [verbose] are threaded explicitly through a
    [shell] record; everything written to stdout and every signal sent with
    [kill] is appended to the [out] log of that record.  C [int] and [pid_t]
    values are modelled as [Z] (signed overflow is undefined behaviour in C
    and is not reachable in the runs considered here); C strings are
    [string]s without embedded NUL. *)

From Stdlib Require Import ZArith Lia Bool Ascii String DecimalString.
From stdpp Require Import base list numbers relations.

Local Open Scope string_scope.
Local Open Scope Z_scope.

(** ** Manifest constants *)

Definition MAXLINE : Z := 1024.
Definition MAXARGS : Z := 128.
Definition MAXJOBS : Z := 16.
Definition MAXJID : Z := Z.shiftl 1 16.

(** Job states: [#define UNDEF 0], [FG 1], [BG 2], [ST 3]. *)
Inductive jstate : Type := UNDEF | FG | BG | ST.

Definition jstate_code (st : jstate) : Z :=
  match st with UNDEF => 0 | FG => 1 | BG => 2 | ST => 3 end.

Definition jstate_eqb (a b : jstate) : bool :=
  jstate_code a =? jstate_code b.

(** [struct job_t] *)
Record job_t : Type := mkjob {
  pid : Z;
  jid : Z;
  state : jstate;
  cmdline : string
}.

(** Signals the shell sends with [kill]. *)
Inductive signal : Type := SIGINT | SIGTSTP | SIGCONT.

(** What the shell writes or sends; one constructor per [printf] format of
    the source, and one for [kill]. *)
Inductive event : Type :=
| MsgAdded (j p : Z) (c : string)        (* "Added job [%d] %d %s\n" *)
| MsgTooManyJobs                         (* "Tried to create too many jobs\n" *)
| MsgStopped (j p sig : Z)               (* "Job [%d] (%d) stopped by signal %d\n" *)
| MsgTerminated (j p sig : Z)            (* "Job [%d] (%d) terminated by signal %d\n" *)
| MsgJob (j p : Z) (c : string)          (* "[%d] (%d) %s" *)
| MsgNeedsArg (cmd : string)             (* "%s command requires PID or %%jobid argument\n" *)
| MsgNoSuchJob (id : string)             (* "%s: No such job\n" *)
| MsgNoSuchProcess (p : Z)               (* "(%d): No such process\n" *)
| MsgBadArg (cmd : string)               (* "%s: argument must be a PID or %%jobid\n" *)
| MsgListed (i : nat) (j : job_t)        (* one line of listjobs *)
| MsgUnixError (msg : string)            (* unix_error: "%s: %s\n" *)
| MsgPerror (msg : string)               (* perror in the parent *)
| Kill (target : Z) (sig : signal).      (* kill(target, sig) *)

(** The interpreter's global variables. *)
Record shell : Type := mkshell {
  jobs : list job_t;
  nextjid : Z;
  verbose : bool;
  out : list event
}.

Definition set_jobs (s : shell) (l : list job_t) : shell :=
  mkshell l (nextjid s) (verbose s) (out s).
Definition set_nextjid (s : shell) (n : Z) : shell :=
  mkshell (jobs s) n (verbose s) (out s).
Definition emit (s : shell) (e : event) : shell :=
  mkshell (jobs s) (nextjid s) (verbose s) (out s ++ [e]).

Definition set_state (j : job_t) (st : jstate) : job_t :=
  mkjob (pid j) (jid j) st (cmdline j).

(** ** Helper routines that manipulate the job list *)

(** [clearjob]: the cleared record. *)
Definition clearjob : job_t := mkjob 0 0 UNDEF "".

(** [initjobs] *)
Definition initjobs : list job_t := replicate (Z.to_nat MAXJOBS) clearjob.

Definition init_shell (v : bool) : shell := mkshell initjobs 1 v [].

(** [for (i = 0; i < MAXJOBS; i++) if (P(jobs[i])) return i;] *)
Fixpoint find_slot (P : job_t -> bool) (l : list job_t) : option nat :=
  match l with
  | [] => None
  | j :: t => if P j then Some 0%nat else S <$> find_slot P t
  end.

(** [maxjid] *)
Definition maxjid (l : list job_t) : Z :=
  fold_left (fun max j => if jid j >? max then jid j else max) l 0.

(** [addjob] *)
Definition addjob (s : shell) (p : Z) (st : jstate) (c : string) : Z * shell :=
  if p <? 1 then (0, s)
  else
    match find_slot (fun j => pid j =? 0) (jobs s) with
    | Some i =>
        let j := mkjob p (nextjid s) st c in
        let n := nextjid s + 1 in
        let n := if n >? MAXJOBS then 1 else n in
        let s1 := set_nextjid (set_jobs s (<[i := j]> (jobs s))) n in
        let s2 := if verbose s then emit s1 (MsgAdded (jid j) (pid j) (cmdline j)) else s1 in
        (1, s2)
    | None => (0, emit s MsgTooManyJobs)
    end.

(** [deletejob] *)
Definition deletejob (s : shell) (p : Z) : Z * shell :=
  if p <? 1 then (0, s)
  else
    match find_slot (fun j => pid j =? p) (jobs s) with
    | Some i =>
        let l := <[i := clearjob]> (jobs s) in
        (1, set_nextjid (set_jobs s l) (maxjid l + 1))
    | None => (0, s)
    end.

(** [fgpid] *)
Definition fgpid (l : list job_t) : Z :=
  match find_slot (fun j => jstate_eqb (state j) FG) l with
  | Some i => from_option pid 0 (l !! i)
  | None => 0
  end.

(** [getjobpid]: the pointer [&jobs[i]] is the slot index [i]. *)
Definition getjobpid (l : list job_t) (p : Z) : option nat :=
  if p <? 1 then None else find_slot (fun j => pid j =? p) l.

(** [getjobjid] *)
Definition getjobjid (l : list job_t) (n : Z) : option nat :=
  if n <? 1 then None else find_slot (fun j => jid j =? n) l.

(** [pid2jid] *)
Definition pid2jid (l : list job_t) (p : Z) : Z :=
  if p <? 1 then 0
  else match find_slot (fun j => pid j =? p) l with
       | Some i => from_option jid 0 (l !! i)
       | None => 0
       end.

(** [listjobs] *)
Fixpoint listjobs_from (i : nat) (l : list job_t) : list event :=
  match l with
  | [] => []
  | j :: t =>
      (if negb (pid j =? 0) then [MsgListed i j] else []) ++ listjobs_from (S i) t
  end.

Definition listjobs (s : shell) : shell :=
  mkshell (jobs s) (nextjid s) (verbose s) (out s ++ listjobs_from 0 (jobs s)).

(** ** The SIGCHLD handler *)

(** The [status] word filled in by [waitpid], as classified by the macros
    of <sys/wait.h>: [WIFSTOPPED] with [WSTOPSIG], [WIFSIGNALED] with
    [WTERMSIG], [WIFEXITED] with [WEXITSTATUS]; [WOther] is a status for
    which none of the three tests of the handler holds. *)
Inductive wstatus : Type :=
| WStopped (sig : Z)
| WSignaled (sig : Z)
| WExited (code : Z)
| WOther.

(** [jobs[i]] *)
Definition job_at (l : list job_t) (i : nat) : job_t := default clearjob (l !! i).

(** Body of the [while] loop of [sigchld_handler] for one [(pid, status)]
    returned by [waitpid]. *)
Definition reap_one (s : shell) (p : Z) (status : wstatus) : shell :=
  match status with
  | WStopped sig =>
      match getjobpid (jobs s) p with
      | Some i =>
          let l := alter (fun j => set_state j ST) i (jobs s) in
          emit (set_jobs s l) (MsgStopped (jid (job_at l i)) (pid (job_at l i)) sig)
      | None => s
      end
  | WSignaled sig =>
      match getjobpid (jobs s) p with
      | Some i =>
          let j := job_at (jobs s) i in
          snd (deletejob (emit s (MsgTerminated (jid j) (pid j) sig)) p)
      | None => s
      end
  | WExited _ => snd (deletejob s p)
  | WOther => s
  end.

(** [sigchld_handler]: [pending] lists the successive results of
    [waitpid(-1, &status, WNOHANG | WUNTRACED)]; the loop runs while the
    returned pid is positive, and an exhausted list is the call that
    returns 0 or -1. *)
Fixpoint sigchld_handler (s : shell) (pending : list (Z * wstatus)) : shell :=
  match pending with
  | [] => s
  | (p, status) :: rest =>
      if p >? 0 then sigchld_handler (reap_one s p status) rest else s
  end.

(** [sigint_handler] and [sigtstp_handler]; [k] is the success of [kill]. *)
Definition forward_signal (sig : signal) (msg : string) (k : bool) (s : shell) : shell :=
  let fg_pid := fgpid (jobs s) in
  if negb (fg_pid =? 0) then
    (if k then emit s (Kill (- fg_pid) sig) else emit s (MsgPerror msg))
  else s.

Definition sigint_handler : bool -> shell -> shell :=
  forward_signal SIGINT "kill (sigint_handler)".
Definition sigtstp_handler : bool -> shell -> shell :=
  forward_signal SIGTSTP "kill (sigtstp_handler)".

(** The loop test of [waitfg]. *)
Definition waitfg_polls (p : Z) (l : list job_t) : bool := p =? fgpid l.

(** ** Characters and numbers of the C library *)

Definition char_code (c : ascii) : Z := Z.of_nat (nat_of_ascii c).

Definition isdigit (c : ascii) : bool :=
  (48 <=? char_code c) && (char_code c <=? 57).

Definition isspace (c : ascii) : bool :=
  (char_code c =? 32) || ((9 <=? char_code c) && (char_code c <=? 13)).

(** [s[0]], the terminating NUL for the empty string. *)
Definition first_char (s : string) : ascii :=
  match s with
  | EmptyString => zero
  | String c _ => c
  end.

(** [s + 1] for a non-empty [s]. *)
Definition str_tail (s : string) : string :=
  match s with
  | EmptyString => EmptyString
  | String _ r => r
  end.

Fixpoint skip_isspace (s : string) : string :=
  match s with
  | String c r => if isspace c then skip_isspace r else s
  | EmptyString => s
  end.

Fixpoint atoi_digits (s : string) (acc : Z) : Z :=
  match s with
  | String c r =>
      if isdigit c then atoi_digits r (acc * 10 + (char_code c - 48)) else acc
  | EmptyString => acc
  end.

(** The number a string begins with: optional white space, optional sign,
    then the leading digits. *)
Definition leading_number (s : string) : Z :=
  let t := skip_isspace s in
  if Ascii.eqb (first_char t) "-" then - atoi_digits (str_tail t) 0
  else if Ascii.eqb (first_char t) "+" then atoi_digits (str_tail t) 0
  else atoi_digits t 0.

Definition LONG_MIN : Z := - 2 ^ 63.
Definition LONG_MAX : Z := 2 ^ 63 - 1.

(** [strtol(s, NULL, 10)]: the leading number, held at [LONG_MIN] or
    [LONG_MAX] when it is out of the range of [long]. *)
Definition strtol10 (s : string) : Z :=
  Z.max LONG_MIN (Z.min LONG_MAX (leading_number s)).

(** Conversion of a [long] to [int]: the low 32 bits, read as signed. *)
Definition to_int (z : Z) : Z := (z + 2 ^ 31) mod 2 ^ 32 - 2 ^ 31.

(** [atoi], as the C library the shell is linked with computes it:
    [(int) strtol(s, NULL, 10)].  The result is an [int]; a digit string
    beyond the range of [int] does not give its mathematical value. *)
Definition atoi (s : string) : Z := to_int (strtol10 s).

(** ** bg and fg *)

(** How a call returns to the read/eval loop: it returns, it is polling in
    [waitfg], or the process has called [exit]. *)
Inductive outcome : Type :=
| Return
| WaitFg (p : Z)
| Exit (code : Z).

(** First half of [do_bgfg]: from [argv] to the job pointer and the pid to
    signal, or to the reported error. *)
Definition do_bgfg_lookup (s : shell) (argv : list string) : shell + nat * Z :=
  let cmd := hd "" argv in
  match argv !! 1%nat with
  | None => inl (emit s (MsgNeedsArg cmd))
  | Some id =>
      if Ascii.eqb (first_char id) "%" then
        let n := atoi (str_tail id) in
        match getjobjid (jobs s) n with
        | None => inl (emit s (MsgNoSuchJob id))
        | Some i => inr (i, pid (job_at (jobs s) i))
        end
      else if isdigit (first_char id) then
        let p := atoi id in
        match getjobpid (jobs s) p with
        | None => inl (emit s (MsgNoSuchProcess p))
        | Some i => inr (i, p)
        end
      else inl (emit s (MsgBadArg cmd))
  end.

(** Second half of [do_bgfg]: [kill(-pid, SIGCONT)], then the state write
    through the job pointer.  [kill_ok] is the success of the [kill] call. *)
Definition do_bgfg_resume (kill_ok : bool) (s : shell) (cmd : string)
    (i : nat) (p : Z) : outcome * shell :=
  if negb kill_ok then (Exit 1, emit s (MsgUnixError "kill (SIGCONT) error"))
  else
    let s1 := emit s (Kill (- p) SIGCONT) in
    if String.eqb cmd "fg" then
      let l := alter (fun j => set_state j FG) i (jobs s1) in
      (WaitFg (pid (job_at l i)), set_jobs s1 l)
    else if String.eqb cmd "bg" then
      let l := alter (fun j => set_state j BG) i (jobs s1) in
      let j := job_at l i in
      (Return, emit (set_jobs s1 l) (MsgJob (jid j) (pid j) (cmdline j)))
    else (Return, s1).

(** [do_bgfg] *)
Definition do_bgfg (kill_ok : bool) (s : shell) (argv : list string) : outcome * shell :=
  match do_bgfg_lookup s argv with
  | inl s' => (Return, s')
  | inr (i, p) => do_bgfg_resume kill_ok s (hd "" argv) i p
  end.

(** [builtin_cmd]: [None] is the return value 0 (not a built-in). *)
Definition builtin_cmd (kill_ok : bool) (s : shell) (argv : list string)
    : option (outcome * shell) :=
  let a0 := hd "" argv in
  if String.eqb a0 "quit" then Some (Exit 0, s)
  else if String.eqb a0 "jobs" then Some (Return, listjobs s)
  else if String.eqb a0 "bg" || String.eqb a0 "fg" then Some (do_bgfg kill_ok s argv)
  else None.

(** ** parseline *)

(** What [parseline] hands back: its return value and its out-parameters. *)
Record parsed : Type := mkparsed {
  p_bg : bool;
  p_argv : list string;
  p_infile : option string;
  p_outfile : option string;
  p_errfile : option string;
  p_append : bool
}.

(** The loops that advance [buf] over blanks. *)
Fixpoint skip_spaces (buf : string) : string :=
  match buf with
  | String c r => if Ascii.eqb c " " then skip_spaces r else buf
  | EmptyString => buf
  end.

(** [delim = strchr(buf, ' ')]: the text before the delimiter, and the
    buffer after it ([delim + 1], or the end of the string when there is no
    space left). *)
Fixpoint split_token (buf : string) : string * string :=
  match buf with
  | EmptyString => (EmptyString, EmptyString)
  | String c r =>
      if Ascii.eqb c " " then (EmptyString, r)
      else let (tok, rest) := split_token r in (String c tok, rest)
  end.

(** [buf[strlen(buf) - 1] = ' '] *)
Fixpoint replace_last (buf : string) : string :=
  match buf with
  | EmptyString => EmptyString
  | String c EmptyString => String " " EmptyString
  | String c r => String c (replace_last r)
  end.

(** The main tokenising loop of [parseline].  Every round consumes at least one
    character, so [fuel] above the length of [buf] is never exhausted
    (lemma [parse_loop_fuel]). *)
Fixpoint parse_loop (fuel : nat) (buf : string) (st : parsed) : parsed :=
  match fuel with
  | O => st
  | S fuel' =>
      match skip_spaces buf with
      | EmptyString => st
      | String c r =>
          if Ascii.eqb c "2" && Ascii.eqb (first_char r) ">" then
            let (tok, rest) := split_token (skip_spaces (str_tail r)) in
            parse_loop fuel' rest
              (mkparsed (p_bg st) (p_argv st) (p_infile st) (p_outfile st) (Some tok) (p_append st))
          else if Ascii.eqb c "<" then
            let (tok, rest) := split_token (skip_spaces r) in
            parse_loop fuel' rest
              (mkparsed (p_bg st) (p_argv st) (Some tok) (p_outfile st) (p_errfile st) (p_append st))
          else if Ascii.eqb c ">" then
            let dbl := Ascii.eqb (first_char r) ">" in
            let (tok, rest) := split_token (skip_spaces (if dbl then str_tail r else r)) in
            parse_loop fuel' rest
              (mkparsed (p_bg st) (p_argv st) (p_infile st) (Some tok) (p_errfile st)
                 (if dbl then true else p_append st))
          else
            let (tok, rest) := split_token (String c r) in
            parse_loop fuel' rest
              (mkparsed (p_bg st) (p_argv st ++ [tok]) (p_infile st) (p_outfile st) (p_errfile st) (p_append st))
      end
  end.

(** The arguments collected by the loop, before the test for [&]. *)
Definition parse_words (cmdline : string) : parsed :=
  let buf := skip_spaces (replace_last cmdline) in
  parse_loop (S (String.length buf)) buf (mkparsed false [] None None None false).

(** [parseline] *)
Definition parseline (cmdline : string) : parsed :=
  let st := parse_words cmdline in
  match list.last (p_argv st) with
  | None => mkparsed true [] (p_infile st) (p_outfile st) (p_errfile st) (p_append st)
  | Some a =>
      let bg := Ascii.eqb (first_char a) "&" in
      mkparsed bg (if bg then removelast (p_argv st) else p_argv st)
        (p_infile st) (p_outfile st) (p_errfile st) (p_append st)
  end.

(** ** parsepipe *)

(** Successive [strtok(..., "|")]: the maximal runs of characters other
    than the delimiter; [cur] is the run being read. *)
Fixpoint strtok_all (delim : ascii) (s : string) (cur : string) : list string :=
  match s with
  | EmptyString => if String.eqb cur "" then [] else [cur]
  | String c r =>
      if Ascii.eqb c delim then
        (if String.eqb cur "" then strtok_all delim r "" else cur :: strtok_all delim r "")
      else strtok_all delim r (cur ++ String c EmptyString)%string
  end.

(** [parsepipe]: the [commands] array; its length is the returned count. *)
Definition parsepipe (cmdline : string) : list string := strtok_all "|" cmdline "".

(** ** Child processes *)

Inductive stdfd : Type := STDIN_FILENO | STDOUT_FILENO | STDERR_FILENO.

(** What a forked child runs before and including [execvp]: the system
    calls of the child branch of [eval], in program order.  Pipe
    descriptors are named by their index in [pipefds]. *)
Inductive child_call : Type :=
| CSigRestore                                         (* sigprocmask(SIG_SETMASK, &prev_one, NULL) *)
| CSetpgid (p g : Z)                                  (* setpgid(p, g) *)
| CRedirect (fd : stdfd) (file : string) (app : bool) (* open, dup2, close *)
| CDup2Pipe (idx : Z) (fd : stdfd)                    (* dup2(pipefds[idx], fd) *)
| CClosePipe (idx : Z)                                (* close(pipefds[idx]) *)
| CExecvp (argv : list string).

Record child : Type := mkchild {
  c_pid : Z;
  c_prog : list child_call
}.

Definition redirect_calls (fd : stdfd) (file : option string) (app : bool) : list child_call :=
  match file with
  | Some f => [CRedirect fd f app]
  | None => []
  end.

(** Child branch of the single-command path of [eval]. *)
Definition single_child_prog (pl : parsed) : list child_call :=
  [CSigRestore; CSetpgid 0 0]
  ++ redirect_calls STDIN_FILENO (p_infile pl) false
  ++ redirect_calls STDOUT_FILENO (p_outfile pl) (p_append pl)
  ++ redirect_calls STDERR_FILENO (p_errfile pl) false
  ++ [CExecvp (p_argv pl)].

(** Child branch of stage [i] of a pipeline of [n] commands. *)
Definition stage_child_prog (n i : Z) (pl : parsed) : list child_call :=
  (if i >? 0 then [CDup2Pipe ((i - 1) * 2) STDIN_FILENO] else [])
  ++ (if i <? n - 1 then [CDup2Pipe (i * 2 + 1) STDOUT_FILENO] else [])
  ++ map (fun j => CClosePipe (Z.of_nat j)) (seq 0 (Z.to_nat (2 * (n - 1))))
  ++ (if i =? 0 then redirect_calls STDIN_FILENO (p_infile pl) false else [])
  ++ (if i =? n - 1 then redirect_calls STDOUT_FILENO (p_outfile pl) (p_append pl) else [])
  ++ [CExecvp (p_argv pl)].

(** Process group of a child: [fork] leaves it in the group of its parent,
    and [setpgid(0, 0)] moves the caller to a group of its own, whose id is
    its pid. *)
Definition pgid_after (self : Z) (g : Z) (c : child_call) : Z :=
  match c with
  | CSetpgid p g' =>
      if (p =? 0) || (p =? self) then (if g' =? 0 then self else g') else g
  | _ => g
  end.

Definition child_pgid (shell_pgid : Z) (c : child) : Z :=
  fold_left (pgid_after (c_pid c)) (c_prog c) shell_pgid.

(** ** eval *)

(** The operating system as [eval] sees it: the value the [k]-th [fork] of
    the call returns in the parent (a positive pid, or -1), whether the
    [k]-th [pipe] succeeds, and whether [kill] succeeds. *)
Record world : Type := mkworld {
  fork_ret : nat -> Z;
  pipe_ok : nat -> bool;
  kill_ok : bool
}.

Record eval_result : Type := mkeval {
  ev_outcome : outcome;
  ev_shell : shell;
  ev_children : list child
}.

Definition forked (p : Z) (prog : list child_call) : list child :=
  if p >? 0 then [mkchild p prog] else [].

(** The loop that forks the stages of a pipeline; [k] is the stage index. *)
Fixpoint fork_stages (w : world) (n : Z) (k : nat) (commands : list string) : list child :=
  match commands with
  | [] => []
  | c :: rest =>
      forked (fork_ret w k) (stage_child_prog n (Z.of_nat k) (parseline c))
      ++ fork_stages w n (S k) rest
  end.

(** [eval].  In the pipeline branch the parent closes its pipe descriptors
    and calls [wait] once per stage after the forks; neither touches a
    variable of the interpreter, and the call returns to the prompt.  The
    arrays [buf], [commands], [argv] and [pipefds] of the source are lists
    here: the function describes [eval] on the lines that fit them
    ([line_fits], further down), and it is one uninterrupted run, so what it
    prints after SIGCHLD is unblocked is what is printed when no handler
    runs in between. *)
Definition eval (w : world) (s : shell) (cmdline : string) : eval_result :=
  let commands := parsepipe cmdline in
  let num_commands := Z.of_nat (length commands) in
  if num_commands =? 1 then
    let pl := parseline cmdline in
    match p_argv pl with
    | [] => mkeval Return s []
    | _ =>
        match builtin_cmd (kill_ok w) s (p_argv pl) with
        | Some (o, s') => mkeval o s' []
        | None =>
            let p := fork_ret w 0 in
            let kids := forked p (single_child_prog pl) in
            let s1 := snd (addjob s p (if p_bg pl then BG else FG) cmdline) in
            if negb (p_bg pl) then mkeval (WaitFg p) s1 kids
            else mkeval Return (emit s1 (MsgJob (pid2jid (jobs s1) p) p cmdline)) kids
        end
    end
  else
    match find (fun i => negb (pipe_ok w i)) (seq 0 (Z.to_nat (num_commands - 1))) with
    | Some _ => mkeval (Exit 1) (emit s (MsgPerror "pipe error")) []
    | None => mkeval Return s (fork_stages w num_commands 0 commands)
    end.

(** ** The interpreter as a transition system *)

(** Where the main flow stands when a signal may be delivered: between two
    commands, inside [do_bgfg] holding the job pointer [&jobs[i]] and the
    pid to signal before the state write, polling in [waitfg], or gone.
    [eval] blocks SIGCHLD from before [fork] until [addjob] has returned, so
    a launch is one step; [do_bgfg] blocks nothing, so the steps below also
    let the handlers run between its lookup, its read of [job->pid] and its
    state write.  The steps follow the writes to the table; what [listjobs]
    and the job line of a background launch read and print while a handler
    runs in between is not followed. *)
Inductive ctl : Type :=
| AtPrompt
| InBgfg (cmd : string) (i : nat) (p : Z)
| InWaitfg (p : Z)
| Halted.

Definition ctl_of (o : outcome) : ctl :=
  match o with
  | Return => AtPrompt
  | WaitFg p => InWaitfg p
  | Exit _ => Halted
  end.

Definition is_bgfg (cmd : string) : bool := String.eqb cmd "bg" || String.eqb cmd "fg".

Inductive step : ctl * shell -> ctl * shell -> Prop :=
| step_eval w s cmdline :
    step (AtPrompt, s)
         (ctl_of (ev_outcome (eval w s cmdline)), ev_shell (eval w s cmdline))
| step_bgfg_lookup s argv i p :
    is_bgfg (hd "" argv) = true ->
    do_bgfg_lookup s argv = inr (i, p) ->
    step (AtPrompt, s) (InBgfg (hd "" argv) i p, s)
| step_bgfg_read_pid s cmd i p :
    step (InBgfg cmd i p, s) (InBgfg cmd i (pid (job_at (jobs s) i)), s)
| step_bgfg_resume k s cmd i p :
    step (InBgfg cmd i p, s)
         (ctl_of (fst (do_bgfg_resume k s cmd i p)), snd (do_bgfg_resume k s cmd i p))
| step_waitfg_exit s p :
    waitfg_polls p (jobs s) = false ->
    step (InWaitfg p, s) (AtPrompt, s)
| step_sigchld c s pending :
    c <> Halted ->
    step (c, s) (c, sigchld_handler s pending)
| step_sigint k c s :
    c <> Halted ->
    step (c, s) (c, sigint_handler k s)
| step_sigtstp k c s :
    c <> Halted ->
    step (c, s) (c, sigtstp_handler k s).

Definition reachable (v : bool) (st : ctl * shell) : Prop :=
  rtc step (AtPrompt, init_shell v) st.

(** Number of slots whose state is FG. *)
Definition is_fg (j : job_t) : bool := jstate_eqb (state j) FG.

Fixpoint count_fg (l : list job_t) : nat :=
  match l with
  | [] => 0%nat
  | j :: t => ((if is_fg j then 1 else 0) + count_fg t)%nat
  end.

(** ** Runs of job-table operations *)

Inductive table_op : Type :=
| OpAdd (p : Z) (st : jstate) (c : string)
| OpDel (p : Z).

Definition run_op (s : shell) (o : table_op) : shell :=
  match o with
  | OpAdd p st c => snd (addjob s p st c)
  | OpDel p => snd (deletejob s p)
  end.

Definition run_ops (s : shell) (ops : list table_op) : shell :=
  fold_left run_op ops s.

(** Job numbers of the occupied slots, in slot order. *)
Definition occupied (j : job_t) : bool := negb (pid j =? 0).

Definition occupied_jids (l : list job_t) : list Z :=
  map jid (List.filter occupied l).

(** ** Statements of the specification *)

(** A table with no empty slot. *)
Definition table_full (l : list job_t) : Prop := Forall (fun j => pid j <> 0) l.

(** A rejected add: failure, the report, and the table left as it was. *)
Definition add_rejected_reported (s : shell) (r : Z * shell) : Prop :=
  fst r = 0 /\ jobs (snd r) = jobs s /\ nextjid (snd r) = nextjid s
  /\ out (snd r) = (out s ++ [MsgTooManyJobs])%list.

(** A rejected add that reports nothing. *)
Definition add_rejected_silently (s : shell) (r : Z * shell) : Prop :=
  fst r = 0 /\ jobs (snd r) = jobs s /\ nextjid (snd r) = nextjid s
  /\ out (snd r) = out s.

(** Largest job number among the occupied slots, 0 when there is none. *)
Definition max_occupied_jid (l : list job_t) : Z :=
  fold_right Z.max 0 (occupied_jids l).

(** The next job number as the specification words it: the maximum plus
    one, back to 1 above [ceiling]. *)
Definition spec_next_jid (ceiling : Z) (l : list job_t) : Z :=
  let n := max_occupied_jid l + 1 in
  if n >? ceiling then 1 else n.

(** Empty slots carry job number 0, as [clearjob] leaves them. *)
Definition empty_slots_clear (l : list job_t) : Prop :=
  Forall (fun j => pid j = 0 -> jid j = 0) l.

(** Sixteen background jobs with pids 100..115 in a fresh table. *)
Definition sixteen_adds : list table_op :=
  map (fun k => OpAdd (100 + Z.of_nat k) BG "job") (seq 0 16).

Definition full16 : shell := run_ops (init_shell false) sixteen_adds.

(** A run after which two occupied slots share job number 1. *)
Definition colliding_run : list table_op :=
  sixteen_adds ++ [OpDel 101; OpDel 102; OpAdd 201 BG "job"; OpAdd 202 BG "job"].

(** A run that keeps two jobs alive and replaces the older one [k] times. *)
Fixpoint climbing_run (k : nat) (p : Z) : list table_op :=
  match k with
  | O => []
  | S k' => OpDel p :: OpAdd (p + 2) BG "job" :: climbing_run k' (p + 1)
  end.

Definition climbed : shell :=
  run_ops (init_shell false)
    (OpAdd 1 BG "job" :: OpAdd 2 BG "job" :: climbing_run (Z.to_nat 65534) 1).

(** The target grammar of the specification: [%] followed by digits, or a
    bare digit string. *)
Fixpoint all_digits (s : string) : bool :=
  match s with
  | EmptyString => true
  | String c r => isdigit c && all_digits r
  end.

Definition digit_string (s : string) : bool :=
  negb (String.eqb s "") && all_digits s.

Definition well_formed_target (id : string) : bool :=
  if Ascii.eqb (first_char id) "%" then digit_string (str_tail id)
  else digit_string id.

(** A bg/fg call that only reports the usage error. *)
Definition usage_error_only (k : bool) (s : shell) (argv : list string) : Prop :=
  do_bgfg k s argv = (Return, emit s (MsgBadArg (hd "" argv))).

(** A table holding one stopped job, pid 100 and job number 1. *)
Definition one_stopped : shell :=
  mkshell (mkjob 100 1 ST "sleep 9" :: replicate 15 clearjob) 2 false [].

(** The line feed that ends a command line. *)
Definition newline : string := String (ascii_of_nat 10) EmptyString.

(** The tokens of a line as the specification reads it: maximal runs of
    characters other than white space. *)
Fixpoint blank_tokens (s : string) (cur : string) : list string :=
  match s with
  | EmptyString => if String.eqb cur "" then [] else [cur]
  | String c r =>
      if isspace c then
        (if String.eqb cur "" then blank_tokens r "" else cur :: blank_tokens r "")
      else blank_tokens r (cur ++ String c EmptyString)%string
  end.

(** Background as the specification words it: the final token is [&]. *)
Definition spec_background (cmdline : string) : bool :=
  match list.last (blank_tokens cmdline "") with
  | Some t => String.eqb t "&"
  | None => false
  end.

(** The invariant behind the single foreground slot.  While the main flow
    polls in [waitfg(p)], at most one slot is FG and every FG slot holds pid
    [p]; at every other control point no slot is FG. *)
Definition fg_owned_by (p : Z) (l : list job_t) : Prop :=
  Forall (fun j => is_fg j = true -> pid j = p) l.

Definition fg_inv (c : ctl) (s : shell) : Prop :=
  match c with
  | InWaitfg p => (count_fg (jobs s) <= 1)%nat /\ fg_owned_by p (jobs s)
  | _ => count_fg (jobs s) = 0%nat
  end.

(** A write to the table that makes no slot FG. *)
Definition shrinks (l l' : list job_t) : Prop :=
  (count_fg l' <= count_fg l)%nat /\ forall p, fg_owned_by p l -> fg_owned_by p l'.

(** A world in which every call succeeds and [fork] hands out the pids
    500, 501, ... *)
Definition calm_world : world :=
  mkworld (fun k => 500 + Z.of_nat k) (fun _ => true) true.

(** A background launch followed by [fg %1]. *)
Definition launched : eval_result :=
  eval calm_world (init_shell false) ("sleep 5 &" ++ newline)%string.

Definition foregrounded : eval_result :=
  eval calm_world (ev_shell launched) ("fg %1" ++ newline)%string.

(** The pipeline of the specification's scenario. *)
Definition cat_wc : eval_result :=
  eval calm_world (init_shell false) ("cat | wc -l" ++ newline)%string.

(** Lines made of plain words: a plain word is not empty, holds no blank,
    and does not begin with [<], [>] or [2>]; the words are separated by one
    blank each and the line ends with a line feed. *)
Fixpoint no_space (w : string) : bool :=
  match w with
  | EmptyString => true
  | String c r => negb (Ascii.eqb c " ") && no_space r
  end.

Definition plain_word (w : string) : bool :=
  match w with
  | EmptyString => false
  | String c r =>
      negb (Ascii.eqb c "2" && Ascii.eqb (first_char r) ">")
      && negb (Ascii.eqb c "<") && negb (Ascii.eqb c ">") && no_space w
  end.

Fixpoint spaced (ws : list string) : string :=
  match ws with
  | [] => EmptyString
  | w :: t => (w ++ String " " (spaced t))%string
  end.

Fixpoint join_words (ws : list string) : string :=
  match ws with
  | [] => EmptyString
  | w :: t =>
      match t with
      | [] => w
      | _ => (w ++ String " " (join_words t))%string
      end
  end.

Definition line_of (ws : list string) : string := (join_words ws ++ newline)%string.

(** ** Further statements about the job list and the parsers *)

(** The slots of a table in use: a slot is either cleared, with pid 0, job
    number 0 and no command text, or it holds a positive pid, a positive
    job number and a state other than UNDEF. *)
Definition slot_ok (j : job_t) : Prop :=
  (pid j = 0 /\ jid j = 0 /\ cmdline j = EmptyString)
  \/ (1 <= pid j /\ 1 <= jid j /\ state j <> UNDEF).

Definition table_ok (s : shell) : Prop :=
  length (jobs s) = Z.to_nat MAXJOBS /\ 1 <= nextjid s /\ Forall slot_ok (jobs s).

(** What the reaper may do to one slot: leave it, or, for a slot with a
    positive pid, clear it or mark it stopped. *)
Definition reaped_from (j j' : job_t) : Prop :=
  j' = j \/ (1 <= pid j /\ (j' = clearjob \/ j' = set_state j ST)).

(** [n] blanks. *)
Fixpoint blanks (n : nat) : string :=
  match n with
  | O => EmptyString
  | S n' => String " " (blanks n')
  end.

(** No occurrence of the character [d] in [w]. *)
Fixpoint no_char (d : ascii) (w : string) : bool :=
  match w with
  | EmptyString => true
  | String c r => negb (Ascii.eqb c d) && no_char d r
  end.

(** The stages of a pipeline written out with [|] between them. *)
Fixpoint join_stages (ts : list string) : string :=
  match ts with
  | [] => EmptyString
  | t :: rest =>
      match rest with
      | [] => t
      | _ => (t ++ String "|" (join_stages rest))%string
      end
  end.

(** The tokens of the command-line grammar: an argument word, and the four
    redirections [<FILE], [>FILE], [>>FILE] and [2>FILE]. *)
Inductive cmd_token : Type :=
| TWord (w : string)
| TIn (f : string)
| TOut (f : string)
| TAppend (f : string)
| TErr (f : string).

Definition render_token (t : cmd_token) : string :=
  match t with
  | TWord w => w
  | TIn f => String "<" f
  | TOut f => String ">" f
  | TAppend f => String ">" (String ">" f)
  | TErr f => String "2" (String ">" f)
  end.

(** A file name that one token can carry: not empty and without blank. *)
Definition file_name (f : string) : bool :=
  negb (String.eqb f "") && no_space f.

Definition token_ok (t : cmd_token) : bool :=
  match t with
  | TWord w => plain_word w
  | TIn f => file_name f
  | TOut f => file_name f && negb (Ascii.eqb (first_char f) ">")
  | TAppend f => file_name f
  | TErr f => file_name f
  end.

(** What one token contributes to the result of the parse. *)
Definition apply_token (st : parsed) (t : cmd_token) : parsed :=
  match t with
  | TWord w =>
      mkparsed (p_bg st) (p_argv st ++ [w]) (p_infile st) (p_outfile st)
        (p_errfile st) (p_append st)
  | TIn f =>
      mkparsed (p_bg st) (p_argv st) (Some f) (p_outfile st) (p_errfile st) (p_append st)
  | TOut f =>
      mkparsed (p_bg st) (p_argv st) (p_infile st) (Some f) (p_errfile st) (p_append st)
  | TAppend f =>
      mkparsed (p_bg st) (p_argv st) (p_infile st) (Some f) (p_errfile st) true
  | TErr f =>
      mkparsed (p_bg st) (p_argv st) (p_infile st) (p_outfile st) (Some f) (p_append st)
  end.

(** The four built-in command names. *)
Definition is_builtin (a : string) : bool :=
  String.eqb a "quit" || String.eqb a "jobs" || String.eqb a "bg" || String.eqb a "fg".

(** What every result of the parsing loop satisfies: arguments are
    non-empty and free of blanks, and file names are free of blanks. *)
Definition parsed_ok (st : parsed) : Prop :=
  Forall (fun a => a <> EmptyString /\ no_space a = true) (p_argv st)
  /\ (forall f, p_infile st = Some f \/ p_outfile st = Some f \/ p_errfile st = Some f ->
        no_space f = true).

(** The parse of nothing. *)
Definition parsed_init : parsed := mkparsed false [] None None None false.

(** ** The command line read as tokens

    A reading of a command line that does not follow the pointer of
    [parseline]: the line is cut at blanks into chunks, and the chunks are
    classified from left to right.  A chunk that begins with [2>], [<] or
    [>] is a redirection; what follows the operator inside the chunk is the
    file name, and when nothing follows, the next chunk is.  Every other
    chunk is an argument token. *)

Inductive redir : Type := RIn | ROut | RErr.

(** The chunks of a buffer: its maximal runs of characters other than the
    blank. *)
Definition line_chunks (buf : string) : list string := strtok_all " " buf "".

(** The operator a chunk begins with, whether it is the appending one, and
    the rest of the chunk. *)
Definition chunk_operator (c : string) : option (redir * bool * string) :=
  if Ascii.eqb (first_char c) "2" && Ascii.eqb (first_char (str_tail c)) ">" then
    Some (RErr, false, str_tail (str_tail c))
  else if Ascii.eqb (first_char c) "<" then Some (RIn, false, str_tail c)
  else if Ascii.eqb (first_char c) ">" then
    (if Ascii.eqb (first_char (str_tail c)) ">"
     then Some (ROut, true, str_tail (str_tail c))
     else Some (ROut, false, str_tail c))
  else None.

Definition set_file (k : redir) (f : string) (st : parsed) : parsed :=
  match k with
  | RIn => mkparsed (p_bg st) (p_argv st) (Some f) (p_outfile st) (p_errfile st) (p_append st)
  | ROut => mkparsed (p_bg st) (p_argv st) (p_infile st) (Some f) (p_errfile st) (p_append st)
  | RErr => mkparsed (p_bg st) (p_argv st) (p_infile st) (p_outfile st) (Some f) (p_append st)
  end.

Definition set_append (app : bool) (st : parsed) : parsed :=
  mkparsed (p_bg st) (p_argv st) (p_infile st) (p_outfile st) (p_errfile st)
    (if app then true else p_append st).

Definition add_argument (a : string) (st : parsed) : parsed :=
  mkparsed (p_bg st) (p_argv st ++ [a]) (p_infile st) (p_outfile st) (p_errfile st)
    (p_append st).

(** Classification of the chunks; [pending] is the operator still waiting
    for its file name. *)
Fixpoint classify_chunks (pending : option redir) (chunks : list string) (st : parsed)
    : parsed :=
  match chunks with
  | [] =>
      match pending with
      | Some k => set_file k EmptyString st
      | None => st
      end
  | c :: rest =>
      match pending with
      | Some k => classify_chunks None rest (set_file k c st)
      | None =>
          match chunk_operator c with
          | Some (k, app, r) =>
              if String.eqb r "" then classify_chunks (Some k) rest (set_append app st)
              else classify_chunks None rest (set_file k r (set_append app st))
          | None => classify_chunks None rest (add_argument c st)
          end
      end
  end.

(** The argument tokens of a command line, whose last character (the line
    feed) counts as a blank. *)
Definition argument_tokens (cmdline : string) : list string :=
  p_argv (classify_chunks None (line_chunks (replace_last cmdline)) parsed_init).

(** ** The capacity of the arrays of eval

    [eval] copies the line into [buf[MAXLINE]], and [parsepipe] and
    [parseline] fill [commands[MAXARGS]] and [argv[MAXARGS]], each with a
    closing NULL, without testing a bound.  A line fits when it is shorter
    than MAXLINE, has fewer than MAXARGS stages, and every command parsed
    from it has fewer than MAXARGS arguments (the [&] counted); on a line
    that does not fit the writes run past the arrays and the source does not
    say what happens. *)
Definition args_fit (c : string) : bool :=
  Z.of_nat (length (p_argv (parse_words c))) <? MAXARGS.

Definition line_fits (cmdline : string) : bool :=
  (Z.of_nat (String.length cmdline) <? MAXLINE)
  && (Z.of_nat (length (parsepipe cmdline)) <? MAXARGS)
  && (if Z.of_nat (length (parsepipe cmdline)) =? 1 then args_fit cmdline
      else forallb args_fit (parsepipe cmdline)).

(** ** The job line of a background launch

    [eval] prints the job line after it has restored the signal mask, so
    the handler may have run in between; [pending] is what [waitpid] hands
    to it before [printf] reads the table through [pid2jid]. *)
Definition job_line (s1 : shell) (pending : list (Z * wstatus)) (p : Z)
    (cmdline : string) : shell :=
  let s2 := sigchld_handler s1 pending in
  emit s2 (MsgJob (pid2jid (jobs s2) p) p cmdline).

(** * Properties *)

(** ** The job table *)

Section JobTable.

Implicit Types (l : list job_t) (s : shell) (P : job_t -> bool).

Lemma find_slot_lookup P l i :
  find_slot P l = Some i -> exists j, l !! i = Some j /\ P j = true.
Proof.
  revert i. induction l as [|x t IH]; intros i H; simpl in H; [discriminate|].
  destruct (P x) eqn:E.
  - injection H as <-. exists x. split; [reflexivity | exact E].
  - destruct (find_slot P t) as [k|]; simpl in H; [|discriminate].
    injection H as <-. destruct (IH k eq_refl) as (j & ? & ?). exists j. auto.
Qed.

Lemma find_slot_lt P l i : find_slot P l = Some i -> (i < length l)%nat.
Proof.
  intros H. destruct (find_slot_lookup _ _ _ H) as (j & Hj & _).
  eapply lookup_lt_Some, Hj.
Qed.

Lemma find_slot_none P l :
  find_slot P l = None <-> Forall (fun j => P j = false) l.
Proof.
  induction l as [|x t IH]; simpl.
  - split; [constructor | reflexivity].
  - destruct (P x) eqn:E.
    + split; [discriminate | intros H; inversion H; congruence].
    + destruct (find_slot P t); simpl.
      * split; [discriminate|]. intros H. inversion H as [|? ? _ Ht].
        apply IH in Ht. discriminate.
      * split; [|reflexivity]. intros _. constructor; [exact E | apply IH; reflexivity].
Qed.

Lemma find_slot_full l : table_full l -> find_slot (fun j => pid j =? 0) l = None.
Proof.
  intros H. apply find_slot_none. eapply Forall_impl; [exact H|].
  intros j Hj. simpl in *. apply Z.eqb_neq. exact Hj.
Qed.

Lemma job_at_lookup l i j : l !! i = Some j -> job_at l i = j.
Proof. unfold job_at. intros ->. reflexivity. Qed.

Lemma getjobpid_some l p i :
  getjobpid l p = Some i ->
  1 <= p /\ find_slot (fun j => pid j =? p) l = Some i /\ pid (job_at l i) = p.
Proof.
  unfold getjobpid. destruct (p <? 1) eqn:E; [discriminate|]. intros H.
  apply Z.ltb_ge in E. destruct (find_slot_lookup _ _ _ H) as (j & Hj & Hp).
  rewrite (job_at_lookup _ _ _ Hj). apply Z.eqb_eq in Hp. auto.
Qed.

Lemma getjobpid_none l p :
  getjobpid l p = None -> p < 1 \/ find_slot (fun j => pid j =? p) l = None.
Proof.
  unfold getjobpid. destruct (p <? 1) eqn:E; [left; apply Z.ltb_lt, E | right; assumption].
Qed.

Lemma maxjid_fold_right l a :
  fold_left (fun max j => if jid j >? max then jid j else max) l a
  = fold_right Z.max a (map jid l).
Proof.
  revert a. induction l as [|x t IH]; intros a; simpl; [reflexivity|].
  rewrite IH. clear IH.
  assert (E : (if jid x >? a then jid x else a) = Z.max a (jid x)).
  { destruct (jid x >? a) eqn:C; [apply Z.gtb_lt in C | rewrite Z.gtb_ltb in C; apply Z.ltb_ge in C]; lia. }
  rewrite E. generalize (map jid t) as L. intros L.
  induction L as [|y L IHL]; simpl; lia.
Qed.

Lemma max_list_nonneg (L : list Z) : 0 <= fold_right Z.max 0 L.
Proof. induction L; simpl; lia. Qed.

Lemma maxjid_occupied l : empty_slots_clear l -> maxjid l = max_occupied_jid l.
Proof.
  unfold maxjid, max_occupied_jid, occupied_jids. rewrite maxjid_fold_right.
  induction 1 as [|x t Hx _ IH]; simpl; [reflexivity|].
  unfold occupied at 1. destruct (pid x =? 0) eqn:E; simpl.
  - apply Z.eqb_eq in E. rewrite (Hx E), IH.
    pose proof (max_list_nonneg (map jid (List.filter occupied t))). lia.
  - rewrite IH. reflexivity.
Qed.

Lemma deletejob_success s p s' :
  deletejob s p = (1, s') ->
  exists i, getjobpid (jobs s) p = Some i
    /\ jobs s' = <[i := clearjob]> (jobs s)
    /\ nextjid s' = maxjid (jobs s') + 1.
Proof.
  unfold deletejob, getjobpid. destruct (p <? 1); [discriminate|].
  destruct (find_slot _ (jobs s)) as [i|]; [|discriminate].
  intros H. injection H as <-. exists i. simpl. auto.
Qed.

Lemma addjob_success s p st c s' :
  addjob s p st c = (1, s') ->
  exists i, (i < length (jobs s))%nat
    /\ pid (job_at (jobs s) i) = 0
    /\ jobs s' = <[i := mkjob p (nextjid s) st c]> (jobs s)
    /\ nextjid s' = (if nextjid s + 1 >? MAXJOBS then 1 else nextjid s + 1).
Proof.
  unfold addjob. destruct (p <? 1); [discriminate|].
  destruct (find_slot _ (jobs s)) as [i|] eqn:F; [|discriminate].
  intros H. injection H as <-. exists i.
  destruct (find_slot_lookup _ _ _ F) as (j & Hj & Hp). apply Z.eqb_eq in Hp.
  split; [eapply find_slot_lt, F|].
  rewrite (job_at_lookup _ _ _ Hj). split; [exact Hp|].
  destruct (verbose s); simpl; auto.
Qed.

End JobTable.

(** C4, as amended.  When no slot of the table is empty and the pid is at
    least 1, [addjob] returns 0, prints "Tried to create too many jobs",
    and leaves every slot and [nextjid] as they were. *)
Theorem addjob_full_table_rejected (s : shell) (p : Z) (st : jstate) (c : string) :
  table_full (jobs s) -> 1 <= p ->
  add_rejected_reported s (addjob s p st c).
Proof.
  intros Hfull Hp. unfold addjob.
  destruct (p <? 1) eqn:E; [apply Z.ltb_lt in E; lia|].
  rewrite (find_slot_full _ Hfull). repeat split.
Qed.

Lemma table_full_check (l : list job_t) :
  forallb occupied l = true -> table_full l.
Proof.
  induction l as [|x t IH]; simpl; intros H; constructor.
  - apply andb_prop in H as [H _]. unfold occupied in H.
    apply negb_true_iff, Z.eqb_neq in H. exact H.
  - apply IH. apply andb_prop in H as [_ H]. exact H.
Defined.

Lemma full16_is_full : table_full (jobs full16).
Proof. apply table_full_check. vm_compute. reflexivity. Defined.

Lemma addjob_full_table_rejected_witness :
  add_rejected_reported full16 (addjob full16 300 FG "ls").
Proof.
  apply (addjob_full_table_rejected full16 300 FG "ls").
  - exact full16_is_full.
  - lia.
Defined.

(** C4 as stated fails when the pid is below 1 (the value [fork] returns
    on failure): the add is rejected on a full table without any report. *)
Lemma addjob_full_table_silent_for_bad_pid :
  table_full (jobs full16)
  /\ add_rejected_silently full16 (addjob full16 (-1) FG "ls")
  /\ ~ add_rejected_reported full16 (addjob full16 (-1) FG "ls").
Proof.
  split; [exact full16_is_full|]. split.
  - unfold add_rejected_silently. vm_compute. repeat split.
  - intros (_ & _ & _ & H). vm_compute in H. discriminate H.
Qed.

(** C10.  For a pid below 1, [addjob] and [deletejob] both return 0 and
    leave the whole interpreter state -- every slot, [nextjid], and the
    output -- as it was. *)
Theorem pid_below_one_rejected (s : shell) (p : Z) (st : jstate) (c : string) :
  p < 1 ->
  addjob s p st c = (0, s) /\ deletejob s p = (0, s).
Proof.
  intros Hp. apply Z.ltb_lt in Hp. unfold addjob, deletejob.
  rewrite Hp. split; reflexivity.
Qed.

Lemma pid_below_one_rejected_witness :
  addjob full16 (-1) FG "ls" = (0, full16) /\ deletejob full16 (-1) = (0, full16).
Proof. apply (pid_below_one_rejected full16 (-1) FG "ls"). lia. Defined.

(** C5, as amended.  In a table whose empty slots carry job number 0, a
    successful [deletejob] clears the slot found for the pid and sets
    [nextjid] to the largest job number of the remaining occupied slots
    plus one, with no wrap; a successful [addjob] fills a slot that was
    empty and gives the new record exactly the current [nextjid] as its job
    number. *)
Theorem nextjid_after_remove_and_add (s : shell) (p : Z) :
  empty_slots_clear (jobs s) ->
  (forall s', deletejob s p = (1, s') ->
     (exists i, getjobpid (jobs s) p = Some i /\ jobs s' = <[i := clearjob]> (jobs s))
     /\ nextjid s' = max_occupied_jid (jobs s') + 1)
  /\ (forall st c s', addjob s p st c = (1, s') ->
     exists i, (i < length (jobs s))%nat /\ pid (job_at (jobs s) i) = 0
        /\ jobs s' = <[i := mkjob p (nextjid s) st c]> (jobs s)
        /\ jid (job_at (jobs s') i) = nextjid s).
Proof.
  intros Hclear. split.
  - intros s' H. destruct (deletejob_success _ _ _ H) as (i & Hi & Hj & Hn).
    split; [exists i; auto|].
    rewrite Hn. f_equal. apply maxjid_occupied. rewrite Hj.
    apply Forall_insert; [exact Hclear | reflexivity].
  - intros st c s' H. destruct (addjob_success _ _ _ _ _ H) as (i & Hlt & Hp & Hj & _).
    exists i. repeat split; auto.
    rewrite Hj. unfold job_at. rewrite list_lookup_insert_eq by exact Hlt. reflexivity.
Qed.

Lemma empty_slots_clear_check (l : list job_t) :
  forallb (fun j => negb (pid j =? 0) || (jid j =? 0)) l = true -> empty_slots_clear l.
Proof.
  induction l as [|x t IH]; simpl; intros H; constructor.
  - apply andb_prop in H as [H _]. intros E. apply Z.eqb_eq in E. rewrite E in H.
    simpl in H. apply Z.eqb_eq in H. exact H.
  - apply IH. apply andb_prop in H as [_ H]. exact H.
Defined.

Lemma nextjid_after_remove_and_add_witness :
  nextjid (snd (deletejob full16 100)) = max_occupied_jid (jobs (snd (deletejob full16 100))) + 1
  /\ exists i, jid (job_at (jobs (snd (addjob (snd (deletejob full16 100)) 300 FG "ls"))) i) = 17.
Proof.
  assert (Hc : empty_slots_clear (jobs full16))
    by (apply empty_slots_clear_check; vm_compute; reflexivity).
  assert (Hc1 : empty_slots_clear (jobs (snd (deletejob full16 100))))
    by (apply empty_slots_clear_check; vm_compute; reflexivity).
  destruct (nextjid_after_remove_and_add full16 100 Hc) as [Hdel _].
  destruct (nextjid_after_remove_and_add (snd (deletejob full16 100)) 300 Hc1) as [_ Hadd].
  split.
  - refine (proj2 (Hdel (snd (deletejob full16 100)) _)). vm_compute. reflexivity.
  - assert (Ha : addjob (snd (deletejob full16 100)) 300 FG "ls"
                 = (1, snd (addjob (snd (deletejob full16 100)) 300 FG "ls")))
      by (vm_compute; reflexivity).
    destruct (Hadd FG "ls" _ Ha) as (i & _ & _ & _ & Hn).
    exists i. rewrite Hn. vm_compute. reflexivity.
Defined.

(** C5 as stated fails: [deletejob] never wraps.  After sixteen adds and
    one remove the counter is 17, above MAXJOBS; and in the state reached by
    [climbed], whose largest job number is MAXJID, a remove leaves the
    counter at MAXJID + 1.  The specification's wording gives 1 in both
    cases. *)
Lemma deletejob_does_not_wrap :
  (fst (deletejob full16 100) = 1
   /\ nextjid (snd (deletejob full16 100)) = 17
   /\ spec_next_jid MAXJOBS (jobs (snd (deletejob full16 100))) = 1)
  /\ (fst (deletejob climbed 65535) = 1
   /\ nextjid (snd (deletejob climbed 65535)) = MAXJID + 1
   /\ spec_next_jid MAXJID (jobs (snd (deletejob climbed 65535))) = 1).
Proof. vm_compute. repeat split. Qed.

(** C2 fails on the code.  After sixteen adds, two removes and two more
    adds, slots 0 and 2 are both occupied with job number 1: [addjob]
    resets [nextjid] to 1 as soon as it exceeds MAXJOBS, while job 1 is
    still in the table. *)
Theorem colliding_run_shares_jid :
  let s := run_ops (init_shell false) colliding_run in
  job_at (jobs s) 0 = mkjob 100 1 BG "job"
  /\ job_at (jobs s) 2 = mkjob 202 1 BG "job"
  /\ ~ NoDup (occupied_jids (jobs s)).
Proof.
  assert (E : occupied_jids (jobs (run_ops (init_shell false) colliding_run))
              = [1; 17; 1; 4; 5; 6; 7; 8; 9; 10; 11; 12; 13; 14; 15; 16])
    by (vm_compute; reflexivity).
  cbv zeta. rewrite E. split; [vm_compute; reflexivity|].
  split; [vm_compute; reflexivity|].
  intros H. apply NoDup_cons in H as [H _]. apply H.
  apply list_elem_of_further, list_elem_of_here.
Qed.

(** ** The reaper *)

Lemma deletejob_found (s : shell) (p : Z) (i : nat) :
  getjobpid (jobs s) p = Some i ->
  deletejob s p
  = (1, set_nextjid (set_jobs s (<[i := clearjob]> (jobs s)))
          (maxjid (<[i := clearjob]> (jobs s)) + 1)).
Proof.
  unfold getjobpid, deletejob. destruct (p <? 1); [discriminate|].
  intros ->. reflexivity.
Qed.

Lemma deletejob_not_found (s : shell) (p : Z) :
  getjobpid (jobs s) p = None -> deletejob s p = (0, s).
Proof.
  unfold getjobpid, deletejob. destruct (p <? 1); [reflexivity|].
  intros ->. reflexivity.
Qed.

Lemma job_at_alter (f : job_t -> job_t) (l : list job_t) (i : nat) :
  (i < length l)%nat -> job_at (alter f i l) i = f (job_at l i).
Proof.
  intros Hi. unfold job_at. rewrite list_lookup_alter_eq.
  destruct (lookup_lt_is_Some_2 l i Hi) as [j Hj]. rewrite Hj. reflexivity.
Qed.

Lemma getjobpid_lt (l : list job_t) (p : Z) (i : nat) :
  getjobpid l p = Some i -> (i < length l)%nat.
Proof.
  intros H. apply getjobpid_some in H as (_ & H & _). eapply find_slot_lt, H.
Qed.

(** C3.  One invocation of the reaper.  The handler takes the results of
    [waitpid] in order: with none left it returns at once; a result that is
    not a positive pid ends the loop; and for a positive pid it runs one
    round and goes on with the rest, so that an invocation with a single
    notification is exactly that round.  The round, for the pid and status
    that [waitpid] returned: a stopped child with a record has the record's
    state set to ST and the stopped notice printed; a child killed by a
    signal with a record has the terminated notice printed and the record
    cleared by [deletejob]; a child that exited has its record cleared and
    nothing printed; with no record for the pid the state is left as it
    is. *)
Theorem reaper_round (s : shell) (p : Z) :
  (forall sig i, getjobpid (jobs s) p = Some i ->
     let s' := reap_one s p (WStopped sig) in
     jobs s' = alter (fun j => set_state j ST) i (jobs s)
     /\ state (job_at (jobs s') i) = ST
     /\ nextjid s' = nextjid s
     /\ out s' = (out s ++ [MsgStopped (jid (job_at (jobs s) i)) p sig])%list)
  /\ (forall sig i, getjobpid (jobs s) p = Some i ->
     let s' := reap_one s p (WSignaled sig) in
     out s' = (out s ++ [MsgTerminated (jid (job_at (jobs s) i)) p sig])%list
     /\ jobs s' = <[i := clearjob]> (jobs s)
     /\ nextjid s' = maxjid (jobs s') + 1)
  /\ (forall code,
     let s' := reap_one s p (WExited code) in
     out s' = out s
     /\ forall i, getjobpid (jobs s) p = Some i ->
          jobs s' = <[i := clearjob]> (jobs s) /\ nextjid s' = maxjid (jobs s') + 1)
  /\ (forall status, getjobpid (jobs s) p = None -> reap_one s p status = s)
  /\ (forall status rest, p > 0 ->
     sigchld_handler s ((p, status) :: rest) = sigchld_handler (reap_one s p status) rest)
  /\ sigchld_handler s [] = s
  /\ (forall status rest, p <= 0 -> sigchld_handler s ((p, status) :: rest) = s)
  /\ (forall status, p > 0 -> sigchld_handler s [(p, status)] = reap_one s p status).
Proof.
  split; [|split; [|split; [|split; [|split; [|split; [|split]]]]]].
  - intros sig i H s'. unfold s', reap_one. rewrite H. simpl.
    pose proof (getjobpid_lt _ _ _ H) as Hi.
    rewrite !job_at_alter by exact Hi. simpl.
    apply getjobpid_some in H as (_ & _ & ->). auto.
  - intros sig i H s'. unfold s', reap_one. rewrite H.
    rewrite (deletejob_found (emit s _) p i) by exact H. simpl.
    apply getjobpid_some in H as (_ & _ & ->). auto.
  - intros code s'. unfold s', reap_one. split.
    + destruct (getjobpid (jobs s) p) as [i|] eqn:E.
      * rewrite (deletejob_found s p i E). reflexivity.
      * rewrite (deletejob_not_found s p E). reflexivity.
    + intros i H. rewrite (deletejob_found s p i H). auto.
  - intros status H. unfold reap_one. destruct status; rewrite ?H; try reflexivity.
    rewrite (deletejob_not_found s p H). reflexivity.
  - intros status rest H. simpl. apply Z.gt_lt, Z.gtb_lt in H. rewrite H. reflexivity.
  - reflexivity.
  - intros status rest H. simpl.
    destruct (p >? 0) eqn:E; [apply Z.gtb_lt in E; lia | reflexivity].
  - intros status H. simpl. apply Z.gt_lt, Z.gtb_lt in H. rewrite H. reflexivity.
Qed.

Lemma reaper_round_witness :
  jobs (reap_one one_stopped 100 (WSignaled 2)) = replicate 16 clearjob
  /\ out (reap_one one_stopped 100 (WSignaled 2)) = [MsgTerminated 1 100 2]
  /\ state (job_at (jobs (reap_one full16 103 (WStopped 20))) 3) = ST
  /\ out (reap_one full16 103 (WStopped 20)) = [MsgStopped 4 103 20]
  /\ jobs (reap_one one_stopped 100 (WExited 0)) = replicate 16 clearjob
  /\ reap_one one_stopped 7 (WExited 0) = one_stopped
  /\ sigchld_handler one_stopped [(100, WSignaled 2)]
     = mkshell (replicate 16 clearjob) 1 false [MsgTerminated 1 100 2]
  /\ sigchld_handler one_stopped [(100, WStopped 20); (0, WOther); (100, WExited 0)]
     = mkshell (mkjob 100 1 ST "sleep 9" :: replicate 15 clearjob) 2 false
         [MsgStopped 1 100 20].
Proof.
  destruct (reaper_round one_stopped 100) as (_ & Hsig & Hexit & _ & Hloop & _ & _ & Hone).
  destruct (reaper_round full16 103) as (Hstop & _).
  destruct (reaper_round one_stopped 7) as (_ & _ & _ & Hnone & _).
  destruct (reaper_round (reap_one one_stopped 100 (WStopped 20)) 0)
    as (_ & _ & _ & _ & _ & _ & Hend & _).
  assert (G0 : getjobpid (jobs one_stopped) 100 = Some 0%nat) by reflexivity.
  assert (G3 : getjobpid (jobs full16) 103 = Some 3%nat) by (vm_compute; reflexivity).
  assert (G7 : getjobpid (jobs one_stopped) 7 = None) by reflexivity.
  destruct (Hsig 2 0%nat G0) as (Ho & Hj & _).
  destruct (Hstop 20 3%nat G3) as (_ & Hst & _ & Ho3).
  destruct (Hexit 0) as (_ & Hx). destruct (Hx 0%nat G0) as (Hxj & _).
  refine (conj _ (conj _ (conj _ (conj _ (conj _ (conj _ (conj _ _))))))).
  - rewrite Hj. reflexivity.
  - rewrite Ho. reflexivity.
  - exact Hst.
  - rewrite Ho3. vm_compute. reflexivity.
  - rewrite Hxj. reflexivity.
  - exact (Hnone (WExited 0) G7).
  - rewrite (Hone (WSignaled 2) ltac:(lia)). vm_compute. reflexivity.
  - rewrite (Hloop (WStopped 20) _ ltac:(lia)).
    rewrite (Hend WOther [(100, WExited 0)] ltac:(lia)). vm_compute. reflexivity.
Defined.

(** ** The single foreground slot *)

Section Foreground.

Implicit Types (l : list job_t) (s : shell) (j : job_t).

Lemma count_fg_zero l : count_fg l = 0%nat <-> Forall (fun j => is_fg j = false) l.
Proof.
  induction l as [|x t IH]; simpl.
  - split; [constructor | reflexivity].
  - destruct (is_fg x) eqn:E; split; intros H.
    + discriminate.
    + inversion H; congruence.
    + constructor; [exact E | apply IH; exact H].
    + inversion H as [|? ? _ Ht]. apply IH. exact Ht.
Qed.

Lemma count_fg_insert_le l i x :
  (count_fg (<[i := x]> l) <= count_fg l + (if is_fg x then 1 else 0))%nat.
Proof.
  revert i. induction l as [|y t IH]; intros i; simpl; [lia|].
  destruct i as [|i]; simpl.
  - destruct (is_fg x), (is_fg y); lia.
  - specialize (IH i). lia.
Qed.

Lemma count_fg_alter_le (f : job_t -> job_t) l i (b : bool) :
  (forall j, is_fg (f j) = b) ->
  (count_fg (alter f i l) <= count_fg l + (if b then 1 else 0))%nat.
Proof.
  intros Hf. revert i. induction l as [|y t IH]; intros i.
  - destruct i; simpl; lia.
  - destruct i as [|i]; simpl.
    + rewrite Hf. destruct b, (is_fg y); lia.
    + specialize (IH i). change (list_alter f i t) with (alter f i t). lia.
Qed.

Lemma shrinks_refl l : shrinks l l.
Proof. split; [lia | auto]. Qed.

Lemma shrinks_insert l i x : is_fg x = false -> shrinks l (<[i := x]> l).
Proof.
  intros Hx. split.
  - pose proof (count_fg_insert_le l i x) as H. rewrite Hx in H. lia.
  - intros p H. apply Forall_insert; [exact H|]. rewrite Hx. discriminate.
Qed.

Lemma shrinks_alter (f : job_t -> job_t) l i :
  (forall j, is_fg (f j) = false) -> shrinks l (alter f i l).
Proof.
  intros Hf. split.
  - pose proof (count_fg_alter_le f l i false Hf) as H. simpl in H. lia.
  - intros p H. apply Forall_alter; [exact H|].
    intros j _ _. rewrite Hf. discriminate.
Qed.

Lemma fg_inv_shrinks c s s' : shrinks (jobs s) (jobs s') -> fg_inv c s -> fg_inv c s'.
Proof.
  intros [Hc Ho]. destruct c; simpl; try lia.
  intros [H1 H2]. split; [lia | apply Ho, H2].
Qed.

Lemma fg_inv_same_jobs c s s' : jobs s' = jobs s -> fg_inv c s -> fg_inv c s'.
Proof. intros E. apply fg_inv_shrinks. rewrite E. apply shrinks_refl. Qed.

Lemma fg_inv_at_most_one c s : fg_inv c s -> (count_fg (jobs s) <= 1)%nat.
Proof. destruct c; simpl; lia. Qed.

Lemma deletejob_shrinks s p : shrinks (jobs s) (jobs (snd (deletejob s p))).
Proof.
  unfold deletejob. destruct (p <? 1); [apply shrinks_refl|].
  destruct (find_slot _ (jobs s)); simpl; [|apply shrinks_refl].
  apply shrinks_insert. reflexivity.
Qed.

Lemma reap_one_shrinks s p status : shrinks (jobs s) (jobs (reap_one s p status)).
Proof.
  destruct status; simpl.
  - destruct (getjobpid (jobs s) p); simpl; [|apply shrinks_refl].
    apply shrinks_alter. reflexivity.
  - destruct (getjobpid (jobs s) p); [|apply shrinks_refl].
    apply (deletejob_shrinks (emit s _) p).
  - apply deletejob_shrinks.
  - apply shrinks_refl.
Qed.

Lemma sigchld_handler_fg_inv c pending : forall s,
  fg_inv c s -> fg_inv c (sigchld_handler s pending).
Proof.
  induction pending as [|[p status] rest IH]; intros s H; simpl; [exact H|].
  destruct (p >? 0); [|exact H].
  apply IH. eapply fg_inv_shrinks; [apply reap_one_shrinks | exact H].
Qed.

Lemma forward_signal_jobs sig msg k s : jobs (forward_signal sig msg k s) = jobs s.
Proof. unfold forward_signal. destruct (negb _), k; reflexivity. Qed.

Lemma addjob_bg_keeps_zero s p st c :
  is_fg (mkjob p (nextjid s) st c) = false ->
  shrinks (jobs s) (jobs (snd (addjob s p st c))).
Proof.
  intros Hst. unfold addjob. destruct (p <? 1); [apply shrinks_refl|].
  destruct (find_slot _ (jobs s)); simpl; [|apply shrinks_refl].
  destruct (verbose s); simpl; apply shrinks_insert; exact Hst.
Qed.

Lemma addjob_fg_inv s p c :
  count_fg (jobs s) = 0%nat -> fg_inv (InWaitfg p) (snd (addjob s p FG c)).
Proof.
  intros H0. unfold addjob. destruct (p <? 1).
  { simpl. split; [lia|]. apply count_fg_zero in H0.
    eapply Forall_impl; [exact H0|]. simpl. intros j ->. discriminate. }
  assert (Hown : fg_owned_by p (jobs s)).
  { apply count_fg_zero in H0. eapply Forall_impl; [exact H0|].
    simpl. intros j ->. discriminate. }
  destruct (find_slot _ (jobs s)) as [i|]; simpl.
  - assert (G : (count_fg (<[i := mkjob p (nextjid s) FG c]> (jobs s)) <= 1)%nat
                /\ fg_owned_by p (<[i := mkjob p (nextjid s) FG c]> (jobs s))).
    { split.
      - pose proof (count_fg_insert_le (jobs s) i (mkjob p (nextjid s) FG c)) as H.
        simpl in H. lia.
      - apply Forall_insert; [exact Hown | reflexivity]. }
    destruct (verbose s); exact G.
  - split; [lia | exact Hown].
Qed.

Lemma do_bgfg_lookup_jobs s argv s' :
  do_bgfg_lookup s argv = inl s' -> jobs s' = jobs s.
Proof.
  unfold do_bgfg_lookup. destruct (argv !! 1%nat) as [id|].
  - destruct (Ascii.eqb (first_char id) "%").
    + destruct (getjobjid _ _); intros H; [discriminate|]. injection H as <-. reflexivity.
    + destruct (isdigit (first_char id)).
      * destruct (getjobpid _ _); intros H; [discriminate|]. injection H as <-. reflexivity.
      * intros H. injection H as <-. reflexivity.
  - intros H. injection H as <-. reflexivity.
Qed.

Lemma do_bgfg_resume_fg_inv k s cmd i p :
  count_fg (jobs s) = 0%nat ->
  fg_inv (ctl_of (fst (do_bgfg_resume k s cmd i p))) (snd (do_bgfg_resume k s cmd i p)).
Proof.
  intros H0. unfold do_bgfg_resume. destruct k; simpl; [|exact H0].
  destruct (String.eqb cmd "fg"); simpl.
  - split.
    + pose proof (count_fg_alter_le (fun j => set_state j FG) (jobs s) i true
                    (fun _ => eq_refl)) as H. simpl in H. lia.
    + apply Forall_alter.
      * apply count_fg_zero in H0. eapply Forall_impl; [exact H0|].
        simpl. intros j ->. discriminate.
      * intros j Hj _ _. unfold job_at. rewrite list_lookup_alter_eq, Hj. reflexivity.
  - destruct (String.eqb cmd "bg"); simpl; [|exact H0].
    pose proof (count_fg_alter_le (fun j => set_state j BG) (jobs s) i false
                  (fun _ => eq_refl)) as H. simpl in H. lia.
Qed.

Lemma waitfg_exit_clears p l : fg_owned_by p l -> fgpid l <> p -> count_fg l = 0%nat.
Proof.
  intros Hown Hne. apply count_fg_zero.
  apply (find_slot_none is_fg). destruct (find_slot is_fg l) as [i|] eqn:F; [|reflexivity].
  exfalso. apply Hne. unfold fgpid. change (fun j => jstate_eqb (state j) FG) with is_fg.
  rewrite F. destruct (find_slot_lookup _ _ _ F) as (j & Hj & Hfg).
  rewrite Hj. simpl. unfold fg_owned_by in Hown.
  rewrite Forall_lookup in Hown. exact (Hown i j Hj Hfg).
Qed.

Lemma eval_fg_inv w s cmdline :
  count_fg (jobs s) = 0%nat ->
  fg_inv (ctl_of (ev_outcome (eval w s cmdline))) (ev_shell (eval w s cmdline)).
Proof.
  intros H0. unfold eval.
  destruct (Z.of_nat (length (parsepipe cmdline)) =? 1).
  - destruct (p_argv (parseline cmdline)) as [|a0 args] eqn:Eargv; [exact H0|].
    unfold builtin_cmd. simpl hd.
    destruct (String.eqb a0 "quit"); [exact H0|].
    destruct (String.eqb a0 "jobs"); [exact H0|].
    destruct (String.eqb a0 "bg" || String.eqb a0 "fg").
    + unfold do_bgfg. destruct (do_bgfg_lookup s (a0 :: args)) as [s'|[i p]] eqn:L.
      * simpl. rewrite (do_bgfg_lookup_jobs _ _ _ L). exact H0.
      * pose proof (do_bgfg_resume_fg_inv (kill_ok w) s (hd "" (a0 :: args)) i p H0) as G.
        destruct (do_bgfg_resume _ _ _ _ _) as [o s']. exact G.
    + destruct (p_bg (parseline cmdline)); simpl.
      * pose proof (addjob_bg_keeps_zero s (fork_ret w 0) BG cmdline eq_refl) as [H _].
        lia.
      * apply addjob_fg_inv, H0.
  - destruct (find _ _); exact H0.
Qed.

Lemma step_fg_inv c s c' s' : step (c, s) (c', s') -> fg_inv c s -> fg_inv c' s'.
Proof.
  intros Hstep. inversion Hstep; subst; intros Hinv.
  - apply eval_fg_inv, Hinv.
  - exact Hinv.
  - exact Hinv.
  - apply do_bgfg_resume_fg_inv, Hinv.
  - destruct Hinv as [_ Hown]. simpl. eapply waitfg_exit_clears; [exact Hown|].
    match goal with H : waitfg_polls _ _ = false |- _ =>
      unfold waitfg_polls in H; apply Z.eqb_neq in H; congruence end.
  - apply sigchld_handler_fg_inv, Hinv.
  - eapply fg_inv_same_jobs; [apply forward_signal_jobs | exact Hinv].
  - eapply fg_inv_same_jobs; [apply forward_signal_jobs | exact Hinv].
Qed.

Lemma reachable_fg_inv v st : reachable v st -> fg_inv (fst st) (snd st).
Proof.
  unfold reachable. revert st.
  apply (rtc_ind_r (fun st => fg_inv (fst st) (snd st))).
  - reflexivity.
  - intros [c s] [c' s'] _ Hstep IH. simpl in *. eapply step_fg_inv; eassumption.
Qed.

End Foreground.

(** C1.  In every state the interpreter can reach from the empty table --
    by evaluating command lines (launches, jobs, bg, fg, pipelines), by the
    separate halves of [do_bgfg] with the handlers running in between, by
    leaving [waitfg], and by any run of the SIGCHLD, SIGINT and SIGTSTP
    handlers at any of these points -- at most one slot of the job table has
    state FG. *)
Theorem at_most_one_foreground (v : bool) (c : ctl) (s : shell) :
  reachable v (c, s) -> (count_fg (jobs s) <= 1)%nat.
Proof.
  intros H. apply reachable_fg_inv in H. eapply fg_inv_at_most_one, H.
Qed.

Lemma at_most_one_foreground_witness :
  (count_fg (jobs (ev_shell foregrounded)) <= 1)%nat.
Proof.
  apply (at_most_one_foreground false (ctl_of (ev_outcome foregrounded))).
  unfold reachable.
  apply rtc_l with (AtPrompt, ev_shell launched).
  - change AtPrompt with (ctl_of (ev_outcome launched)) at 2. apply step_eval.
  - apply rtc_once. apply step_eval.
Defined.

(** ** bg and fg targets *)

Lemma bad_first_char_not_well_formed (id : string) :
  Ascii.eqb (first_char id) "%" = false -> isdigit (first_char id) = false ->
  well_formed_target id = false.
Proof.
  intros Hpct Hdig. unfold well_formed_target. rewrite Hpct.
  destruct id as [|c r]; [reflexivity|]. simpl in Hdig.
  unfold digit_string. simpl. rewrite Hdig. reflexivity.
Qed.

(** C7, as amended.  When the first character of the target is neither [%]
    nor a digit, [do_bgfg] prints "argument must be a PID or %jobid" and
    returns: no job record and no counter changes, and nothing else -- in
    particular no signal -- is written or sent. *)
Theorem bgfg_rejects_bad_first_char (k : bool) (s : shell) (cmd id : string)
    (rest : list string) :
  Ascii.eqb (first_char id) "%" = false -> isdigit (first_char id) = false ->
  let r := do_bgfg k s (cmd :: id :: rest) in
  usage_error_only k s (cmd :: id :: rest)
  /\ fst r = Return
  /\ jobs (snd r) = jobs s /\ nextjid (snd r) = nextjid s
  /\ out (snd r) = (out s ++ [MsgBadArg cmd])%list.
Proof.
  intros Hpct Hdig r.
  assert (E : do_bgfg k s (cmd :: id :: rest) = (Return, emit s (MsgBadArg cmd))).
  { unfold do_bgfg, do_bgfg_lookup. simpl. rewrite Hpct, Hdig. reflexivity. }
  unfold usage_error_only, r. rewrite E. simpl. auto.
Qed.

Lemma bgfg_rejects_bad_first_char_witness :
  usage_error_only true one_stopped ["fg"; "abc"]
  /\ fst (do_bgfg true one_stopped ["fg"; "abc"]) = Return
  /\ jobs (snd (do_bgfg true one_stopped ["fg"; "abc"])) = jobs one_stopped
  /\ nextjid (snd (do_bgfg true one_stopped ["fg"; "abc"])) = nextjid one_stopped
  /\ out (snd (do_bgfg true one_stopped ["fg"; "abc"]))
     = (out one_stopped ++ [MsgBadArg "fg"])%list.
Proof.
  apply (bgfg_rejects_bad_first_char true one_stopped "fg" "abc" []); reflexivity.
Defined.

(** C7 as stated fails: a target that is neither [%digits] nor digits but
    begins with [%] or a digit is read with [atoi].  [bg %1abc] resumes job
    1 (SIGCONT sent, state set to BG), and [fg %abc] reports "No such job"
    instead of the usage error. *)
Lemma bgfg_malformed_target_not_ignored :
  (well_formed_target "%1abc" = false
   /\ do_bgfg true one_stopped ["bg"; "%1abc"]
      = (Return,
         mkshell (mkjob 100 1 BG "sleep 9" :: replicate 15 clearjob) 2 false
           [Kill (-100) SIGCONT; MsgJob 1 100 "sleep 9"])
   /\ ~ usage_error_only true one_stopped ["bg"; "%1abc"])
  /\ (well_formed_target "%abc" = false
   /\ do_bgfg true one_stopped ["fg"; "%abc"]
      = (Return, emit one_stopped (MsgNoSuchJob "%abc"))
   /\ ~ usage_error_only true one_stopped ["fg"; "%abc"]).
Proof.
  split; (split; [reflexivity|]; split; [vm_compute; reflexivity|]).
  - unfold usage_error_only. vm_compute. intros H. discriminate H.
  - unfold usage_error_only. vm_compute. intros H. discriminate H.
Qed.

(** ** Pipelines *)

Lemma reap_one_no_record (s : shell) (p : Z) (status : wstatus) :
  getjobpid (jobs s) p = None -> reap_one s p status = s.
Proof.
  intros H. unfold reap_one. destruct status; rewrite ?H; try reflexivity.
  rewrite (deletejob_not_found s p H). reflexivity.
Qed.

Lemma sigchld_handler_no_records (s : shell) (pending : list (Z * wstatus)) :
  Forall (fun n => getjobpid (jobs s) (fst n) = None) pending ->
  sigchld_handler s pending = s.
Proof.
  induction 1 as [|[p status] rest Hp _ IH]; simpl; [reflexivity|].
  destruct (p >? 0); [|reflexivity].
  rewrite (reap_one_no_record s p status Hp). exact IH.
Qed.

Lemma pipeline_branch (w : world) (s : shell) (cmdline : string) :
  (2 <= length (parsepipe cmdline))%nat ->
  eval w s cmdline = mkeval (Exit 1) (emit s (MsgPerror "pipe error")) []
  \/ eval w s cmdline
     = mkeval Return s
         (fork_stages w (Z.of_nat (length (parsepipe cmdline))) 0 (parsepipe cmdline)).
Proof.
  intros Hn. unfold eval.
  destruct (Z.of_nat (length (parsepipe cmdline)) =? 1) eqn:E.
  { apply Z.eqb_eq in E. lia. }
  destruct (find _ _); [left | right]; reflexivity.
Qed.

(** C9.  Evaluating a command line that [parsepipe] splits into two or
    more stages leaves every slot of the job table and [nextjid] as they
    were, and returns to the prompt without entering [waitfg] (or exits when
    [pipe] fails); when the reaper then runs for children that have no
    record, as the stages of the pipeline do, the table is still the same. *)
Theorem pipeline_leaves_job_table (w : world) (s : shell) (cmdline : string) :
  (2 <= length (parsepipe cmdline))%nat ->
  let r := eval w s cmdline in
  jobs (ev_shell r) = jobs s /\ nextjid (ev_shell r) = nextjid s
  /\ (ev_outcome r = Return \/ ev_outcome r = Exit 1)
  /\ forall pending,
       Forall (fun n => getjobpid (jobs s) (fst n) = None) pending ->
       jobs (sigchld_handler (ev_shell r) pending) = jobs s
       /\ nextjid (sigchld_handler (ev_shell r) pending) = nextjid s.
Proof.
  intros Hn r. unfold r.
  destruct (pipeline_branch w s cmdline Hn) as [-> | ->]; simpl.
  - repeat split; auto.
    all: rewrite (sigchld_handler_no_records (emit s _) pending) by exact H;
      reflexivity.
  - repeat split; auto.
    all: rewrite (sigchld_handler_no_records s pending) by exact H; reflexivity.
Qed.

Lemma pipeline_leaves_job_table_witness :
  jobs (ev_shell cat_wc) = initjobs /\ nextjid (ev_shell cat_wc) = 1
  /\ jobs (sigchld_handler (ev_shell cat_wc) [(500, WExited 0); (501, WExited 0)])
     = initjobs.
Proof.
  assert (Hn : (2 <= length (parsepipe ("cat | wc -l" ++ newline)%string))%nat)
    by (vm_compute; lia).
  destruct (pipeline_leaves_job_table calm_world (init_shell false)
              ("cat | wc -l" ++ newline)%string Hn) as (Hj & Hc & _ & Hr).
  refine (conj Hj (conj Hc _)).
  refine (proj1 (Hr [(500, WExited 0); (501, WExited 0)] _)).
  repeat constructor.
Defined.

(** ** Process groups of the children *)

Lemma fold_pgid_neutral (self g : Z) (prog : list child_call) :
  Forall (fun c => forall g', pgid_after self g' c = g') prog ->
  fold_left (pgid_after self) prog g = g.
Proof.
  intros H. revert g. induction H as [|c t Hc _ IH]; intros g; simpl; [reflexivity|].
  rewrite Hc. apply IH.
Qed.

Lemma redirect_calls_neutral (self : Z) (fd : stdfd) (file : option string) (app : bool) :
  Forall (fun c => forall g', pgid_after self g' c = g') (redirect_calls fd file app).
Proof. destruct file; repeat constructor. Qed.

Lemma close_calls_neutral (self : Z) (idxs : list nat) :
  Forall (fun c => forall g', pgid_after self g' c = g')
    (map (fun j => CClosePipe (Z.of_nat j)) idxs).
Proof. induction idxs; simpl; constructor; auto. Qed.

Lemma stage_child_prog_neutral (self n i : Z) (pl : parsed) :
  Forall (fun c => forall g', pgid_after self g' c = g') (stage_child_prog n i pl).
Proof.
  unfold stage_child_prog. repeat apply Forall_app_2.
  - destruct (i >? 0); repeat constructor.
  - destruct (i <? n - 1); repeat constructor.
  - apply close_calls_neutral.
  - destruct (i =? 0); [apply redirect_calls_neutral | constructor].
  - destruct (i =? n - 1); [apply redirect_calls_neutral | constructor].
  - repeat constructor.
Qed.

Lemma fork_stages_pgid (w : world) (n g : Z) (commands : list string) : forall k,
  Forall (fun c => child_pgid g c = g) (fork_stages w n k commands).
Proof.
  induction commands as [|c rest IH]; intros k; simpl; [constructor|].
  apply Forall_app_2; [|apply IH].
  unfold forked. destruct (fork_ret w k >? 0); constructor; [|constructor].
  unfold child_pgid. simpl. apply fold_pgid_neutral, stage_child_prog_neutral.
Qed.

Lemma single_child_own_group (p g : Z) (pl : parsed) :
  child_pgid g (mkchild p (single_child_prog pl)) = p.
Proof.
  unfold child_pgid, single_child_prog. simpl.
  apply fold_pgid_neutral. repeat apply Forall_app_2;
    try apply redirect_calls_neutral. repeat constructor.
Qed.

(** C6 fails on the code.  No stage of a pipeline calls [setpgid]: every
    child forked for a command line of two or more stages stays in the
    process group [g] of the interpreter, whereas the child of the
    single-command path calls [setpgid(0, 0)] and leads a group of its
    own. *)
Theorem pipeline_stages_stay_in_shell_group (w : world) (s : shell)
    (cmdline : string) (g : Z) :
  (2 <= length (parsepipe cmdline))%nat ->
  Forall (fun c => child_pgid g c = g) (ev_children (eval w s cmdline))
  /\ forall p pl, child_pgid g (mkchild p (single_child_prog pl)) = p.
Proof.
  intros Hn. split; [|intros p pl; apply single_child_own_group].
  destruct (pipeline_branch w s cmdline Hn) as [-> | ->]; simpl.
  - constructor.
  - apply fork_stages_pgid.
Qed.

Lemma pipeline_stages_stay_in_shell_group_witness :
  map c_pid (ev_children cat_wc) = [500; 501]
  /\ Forall (fun c => child_pgid 77 c = 77) (ev_children cat_wc).
Proof.
  split; [vm_compute; reflexivity|].
  refine (proj1 (pipeline_stages_stay_in_shell_group calm_world (init_shell false)
                   ("cat | wc -l" ++ newline)%string 77 _)).
  vm_compute. lia.
Defined.

(** ** parseline *)

Lemma skip_spaces_length (b : string) :
  (String.length (skip_spaces b) <= String.length b)%nat.
Proof.
  induction b as [|c r IH]; simpl; [lia|].
  destruct (Ascii.eqb c " "); simpl; lia.
Qed.

Lemma skip_spaces_head (b : string) (c : ascii) (r : string) :
  skip_spaces b = String c r -> Ascii.eqb c " " = false.
Proof.
  induction b as [|x t IH]; simpl; [discriminate|].
  destruct (Ascii.eqb x " ") eqn:E; [exact IH|].
  intros H. injection H as <- _. exact E.
Qed.

Lemma split_token_length (b tok rest : string) :
  split_token b = (tok, rest) -> (String.length rest <= String.length b)%nat.
Proof.
  revert tok rest. induction b as [|c r IH]; simpl; intros tok rest H.
  - injection H as _ <-. simpl. lia.
  - destruct (Ascii.eqb c " ").
    + injection H as _ <-. lia.
    + destruct (split_token r) as [t r'] eqn:E. injection H as _ <-.
      specialize (IH t r' eq_refl). lia.
Qed.

Lemma str_tail_length (s : string) : (String.length (str_tail s) <= String.length s)%nat.
Proof. destruct s; simpl; lia. Qed.

(** The fuel of [parse_loop] is never exhausted: any two amounts above the
    length of the buffer give the same result. *)
Lemma parse_loop_fuel (n : nat) : forall (m : nat) (buf : string) (st : parsed),
  (String.length buf < n)%nat -> (String.length buf < m)%nat ->
  parse_loop n buf st = parse_loop m buf st.
Proof.
  induction n as [|n IH]; intros m buf st Hn Hm; [lia|].
  destruct m as [|m]; [lia|]. simpl.
  pose proof (skip_spaces_length buf) as Hs.
  destruct (skip_spaces buf) as [|c r] eqn:E; [reflexivity|].
  pose proof (skip_spaces_head _ _ _ E) as Hc. simpl in Hs.
  destruct (Ascii.eqb c "2" && Ascii.eqb (first_char r) ">").
  { destruct (split_token (skip_spaces (str_tail r))) as [tok rest] eqn:T.
    apply split_token_length in T.
    pose proof (skip_spaces_length (str_tail r)). pose proof (str_tail_length r).
    apply IH; lia. }
  destruct (Ascii.eqb c "<").
  { destruct (split_token (skip_spaces r)) as [tok rest] eqn:T.
    apply split_token_length in T. pose proof (skip_spaces_length r).
    apply IH; lia. }
  destruct (Ascii.eqb c ">").
  { destruct (split_token (skip_spaces _)) as [tok rest] eqn:T.
    apply split_token_length in T.
    pose proof (skip_spaces_length (if Ascii.eqb (first_char r) ">" then str_tail r else r)).
    pose proof (str_tail_length r).
    destruct (Ascii.eqb (first_char r) ">"); apply IH; lia. }
  rewrite Hc. destruct (split_token r) as [tok rest] eqn:T.
  apply split_token_length in T. apply IH; lia.
Qed.

Lemma replace_last_app (b : string) (c : ascii) :
  replace_last (b ++ String c EmptyString) = (b ++ " ")%string.
Proof.
  induction b as [|x t IH]; simpl; [reflexivity|].
  rewrite IH. destruct t; reflexivity.
Qed.

Lemma append_assoc (a b c : string) : ((a ++ b) ++ c = a ++ (b ++ c))%string.
Proof. induction a as [|x t IH]; simpl; [reflexivity | rewrite IH; reflexivity]. Qed.

Lemma join_words_spaced (ws : list string) :
  ws <> [] -> (join_words ws ++ " ")%string = spaced ws.
Proof.
  induction ws as [|w t IH]; intros H; [congruence|].
  destruct t as [|w' t'].
  - reflexivity.
  - change (join_words (w :: w' :: t')) with (w ++ String " " (join_words (w' :: t')))%string.
    change (spaced (w :: w' :: t')) with (w ++ String " " (spaced (w' :: t')))%string.
    rewrite <- IH by discriminate. rewrite append_assoc. reflexivity.
Qed.

Lemma split_token_word (w rest : string) :
  no_space w = true -> split_token (w ++ String " " rest) = (w, rest).
Proof.
  induction w as [|c r IH]; simpl; intros H; [reflexivity|].
  apply andb_prop in H as [Hc Hr]. apply negb_true_iff in Hc.
  rewrite Hc, (IH Hr). reflexivity.
Qed.

Lemma spaced_length (ws : list string) :
  Forall (fun w => plain_word w = true) ws ->
  (length ws <= String.length (spaced ws))%nat.
Proof.
  induction 1 as [|w t Hw _ IH]; simpl; [lia|].
  destruct w as [|c r]; [discriminate|]. simpl.
  assert (G : forall a b : string,
             (String.length b <= String.length (a ++ b))%nat).
  { intros a b. induction a; simpl; lia. }
  pose proof (G r (String " " (spaced t))) as Hl. simpl in Hl. lia.
Qed.

(** On a line of plain words the loop collects exactly the words. *)
Lemma parse_loop_plain (ws : list string) : forall (n : nat) (st : parsed),
  Forall (fun w => plain_word w = true) ws -> (length ws <= n)%nat ->
  parse_loop n (spaced ws) st
  = mkparsed (p_bg st) (p_argv st ++ ws) (p_infile st) (p_outfile st)
      (p_errfile st) (p_append st).
Proof.
  induction ws as [|w t IH]; intros n st Hws Hn.
  - rewrite app_nil_r. destruct n, st; reflexivity.
  - inversion Hws as [|? ? Hw Ht]; subst. simpl in Hn.
    destruct n as [|n]; [lia|].
    destruct w as [|c r]; [discriminate|].
    unfold plain_word in Hw.
    apply andb_prop in Hw as [Hw Hsp]. apply andb_prop in Hw as [Hw Hgt].
    apply andb_prop in Hw as [H2 Hlt].
    apply negb_true_iff in H2, Hlt, Hgt.
    pose proof Hsp as Hsp'. simpl in Hsp'.
    apply andb_prop in Hsp' as [Hc Hr]. apply negb_true_iff in Hc.
    change (spaced (String c r :: t)) with (String c (r ++ String " " (spaced t)))%string.
    cbn [parse_loop skip_spaces]. rewrite Hc.
    assert (F : Ascii.eqb c "2" && Ascii.eqb (first_char (r ++ String " " (spaced t))) ">"
                = false).
    { destruct r as [|d r']; [|exact H2]. simpl. apply andb_false_r. }
    rewrite F, Hlt, Hgt.
    change (split_token (String c (r ++ String " " (spaced t))))
      with (split_token (String c r ++ String " " (spaced t))).
    rewrite (split_token_word _ _ Hsp).
    rewrite IH by (auto; lia). simpl. rewrite <- app_assoc. reflexivity.
Qed.

Lemma parse_words_plain (ws : list string) :
  ws <> [] -> Forall (fun w => plain_word w = true) ws ->
  parse_words (line_of ws) = mkparsed false ws None None None false.
Proof.
  intros Hne Hws. unfold parse_words, line_of, newline.
  rewrite replace_last_app, (join_words_spaced ws Hne).
  assert (E : skip_spaces (spaced ws) = spaced ws).
  { destruct ws as [|w t]; [congruence|]. inversion Hws as [|? ? Hw _]; subst.
    destruct w as [|c r]; [discriminate|]. unfold plain_word in Hw.
    apply andb_prop in Hw as [_ Hsp]. simpl in Hsp.
    apply andb_prop in Hsp as [Hc _]. apply negb_true_iff in Hc.
    simpl. rewrite Hc. reflexivity. }
  rewrite E. rewrite parse_loop_plain; [reflexivity | exact Hws |].
  pose proof (spaced_length ws Hws). lia.
Qed.

(** *** The loop of parseline against the reading by tokens *)

Section Chunks.

Implicit Types (buf b r t tok rest cur : string) (st : parsed) (k : redir).

Lemma line_chunks_skip b : line_chunks (skip_spaces b) = line_chunks b.
Proof.
  unfold line_chunks. induction b as [|c r IH]; [reflexivity|]. simpl.
  destruct (Ascii.eqb c " ") eqn:Ec; [exact IH|]. simpl. rewrite Ec. reflexivity.
Qed.

Lemma append_empty cur : (cur ++ "")%string = cur.
Proof. induction cur as [|x u IH]; simpl; [reflexivity | rewrite IH; reflexivity]. Qed.

Lemma strtok_all_token b : forall cur tok rest,
  split_token b = (tok, rest) -> (cur ++ tok)%string <> EmptyString ->
  strtok_all " " b cur = (cur ++ tok)%string :: strtok_all " " rest "".
Proof.
  induction b as [|c r IH]; intros cur tok rest H Hne; simpl in *.
  - injection H as <- <-. rewrite append_empty in *.
    destruct (String.eqb cur "") eqn:E; [|reflexivity].
    apply String.eqb_eq in E. congruence.
  - destruct (Ascii.eqb c " ").
    + injection H as <- <-. rewrite append_empty in *.
      destruct (String.eqb cur "") eqn:E; [|reflexivity].
      apply String.eqb_eq in E. congruence.
    + destruct (split_token r) as [t r'] eqn:T. injection H as <- <-.
      rewrite (IH (cur ++ String c "")%string t r' eq_refl).
      * rewrite append_assoc. reflexivity.
      * rewrite append_assoc. simpl. exact Hne.
Qed.

Lemma line_chunks_cons c r t rest :
  Ascii.eqb c " " = false -> split_token r = (t, rest) ->
  line_chunks (String c r) = String c t :: line_chunks rest.
Proof.
  intros Hc T. unfold line_chunks.
  apply (strtok_all_token (String c r) "" (String c t) rest); [|discriminate].
  simpl. rewrite Hc, T. reflexivity.
Qed.

(** The file name of an operator: the rest of its chunk, or the next chunk. *)
Lemma file_after_operator b : forall t rest0 tok rest k st,
  split_token b = (t, rest0) -> split_token (skip_spaces b) = (tok, rest) ->
  (if String.eqb t "" then classify_chunks (Some k) (line_chunks rest0) st
   else classify_chunks None (line_chunks rest0) (set_file k t st))
  = classify_chunks None (line_chunks rest) (set_file k tok st).
Proof.
  intros t rest0 tok rest k st H1 H2. destruct b as [|x b'].
  - simpl in H1, H2. injection H1 as <- <-. injection H2 as <- <-. reflexivity.
  - simpl in H1, H2. destruct (Ascii.eqb x " ") eqn:Ex.
    + injection H1 as <- <-. simpl.
      rewrite <- (line_chunks_skip b').
      destruct (skip_spaces b') as [|y b''] eqn:E.
      * simpl in H2. injection H2 as <- <-. reflexivity.
      * pose proof (skip_spaces_head _ _ _ E) as Hy.
        simpl in H2. rewrite Hy in H2.
        destruct (split_token b'') as [t'' r''] eqn:T. injection H2 as <- <-.
        rewrite (line_chunks_cons y b'' t'' r'' Hy T). reflexivity.
    + simpl in H2. rewrite Ex in H2.
      destruct (split_token b') as [t' r'] eqn:T.
      injection H1 as <- <-. injection H2 as <- <-. reflexivity.
Qed.

Lemma first_char_of_token r t rest :
  split_token r = (t, rest) ->
  Ascii.eqb (first_char t) ">" = Ascii.eqb (first_char r) ">".
Proof.
  destruct r as [|d r']; simpl; intros H.
  - injection H as <- _. reflexivity.
  - destruct (Ascii.eqb d " ") eqn:Ed.
    + injection H as <- _. apply Ascii.eqb_eq in Ed. subst d. reflexivity.
    + destruct (split_token r') as [t' r'']. injection H as <- _. reflexivity.
Qed.

Lemma split_token_after_gt r t rest :
  Ascii.eqb (first_char r) ">" = true -> split_token r = (t, rest) ->
  split_token (str_tail r) = (str_tail t, rest).
Proof.
  destruct r as [|d r']; simpl; [discriminate|]. intros Hd.
  apply Ascii.eqb_eq in Hd. subst d. change (Ascii.eqb ">" " ") with false. cbv iota.
  destruct (split_token r') as [t' r'']. intros H. injection H as <- <-. reflexivity.
Qed.

Lemma parse_loop_chunks (n : nat) : forall buf st,
  (String.length buf < n)%nat ->
  parse_loop n buf st = classify_chunks None (line_chunks buf) st.
Proof.
  induction n as [|n IH]; intros buf st Hn; [lia|].
  rewrite <- (line_chunks_skip buf). cbn [parse_loop].
  pose proof (skip_spaces_length buf) as Hs.
  destruct (skip_spaces buf) as [|c r] eqn:E; [reflexivity|].
  pose proof (skip_spaces_head _ _ _ E) as Hc. simpl in Hs.
  destruct (split_token r) as [t rest0] eqn:T0.
  pose proof (split_token_length _ _ _ T0) as Hl0.
  rewrite (line_chunks_cons c r t rest0 Hc T0).
  cbn [classify_chunks]. unfold chunk_operator. cbn [first_char str_tail].
  rewrite (first_char_of_token r t rest0 T0).
  destruct (Ascii.eqb c "2" && Ascii.eqb (first_char r) ">") eqn:C1.
  { apply andb_prop in C1 as [_ Hgt].
    pose proof (split_token_after_gt r t rest0 Hgt T0) as T1.
    destruct (split_token (skip_spaces (str_tail r))) as [tok rest] eqn:T.
    pose proof (split_token_length _ _ _ T) as Hl.
    pose proof (skip_spaces_length (str_tail r)). pose proof (str_tail_length r).
    rewrite (file_after_operator (str_tail r) (str_tail t) rest0 tok rest RErr
               (set_append false st) T1 T).
    rewrite IH by lia. destruct st; reflexivity. }
  destruct (Ascii.eqb c "<") eqn:C2.
  { destruct (split_token (skip_spaces r)) as [tok rest] eqn:T.
    pose proof (split_token_length _ _ _ T) as Hl.
    pose proof (skip_spaces_length r).
    rewrite (file_after_operator r t rest0 tok rest RIn (set_append false st) T0 T).
    rewrite IH by lia. destruct st; reflexivity. }
  destruct (Ascii.eqb c ">") eqn:C3.
  { destruct (Ascii.eqb (first_char r) ">") eqn:Hgt.
    - pose proof (split_token_after_gt r t rest0 Hgt T0) as T1.
      destruct (split_token (skip_spaces (str_tail r))) as [tok rest] eqn:T.
      pose proof (split_token_length _ _ _ T) as Hl.
      pose proof (skip_spaces_length (str_tail r)). pose proof (str_tail_length r).
      rewrite (file_after_operator (str_tail r) (str_tail t) rest0 tok rest ROut
                 (set_append true st) T1 T).
      rewrite IH by lia. destruct st; reflexivity.
    - destruct (split_token (skip_spaces r)) as [tok rest] eqn:T.
      pose proof (split_token_length _ _ _ T) as Hl.
      pose proof (skip_spaces_length r).
      rewrite (file_after_operator r t rest0 tok rest ROut (set_append false st) T0 T).
      rewrite IH by lia. destruct st; reflexivity. }
  change (split_token (String c r))
    with (if Ascii.eqb c " " then (EmptyString, r)
          else let (tok, rest) := split_token r in (String c tok, rest)).
  rewrite Hc, T0. rewrite IH by lia. reflexivity.
Qed.

(** The whole loop: the arguments and files [parseline] collects are those
    of the reading by tokens. *)
Lemma parse_words_chunks (cmdline : string) :
  parse_words cmdline
  = classify_chunks None (line_chunks (replace_last cmdline)) parsed_init.
Proof.
  unfold parse_words. rewrite parse_loop_chunks by lia.
  rewrite line_chunks_skip. reflexivity.
Qed.

End Chunks.

(** C8, as amended.  Read the line as tokens: its last character, the
    line feed, counts as a blank; the line is cut at blanks; a chunk that
    begins with [2>], [<] or [>] is a redirection, with its file name in the
    rest of the chunk or else in the next chunk; every other chunk is an
    argument token.  For every command line, [parseline] reports background
    exactly when the line has no argument token at all, or its last
    argument token begins with the character [&]; in that case this last
    token is dropped from [argv], and otherwise [argv] is the list of
    argument tokens.  On a line of plain words separated by single blanks
    the argument tokens are the words, so such a line is background exactly
    when its last word begins with [&]. *)
Theorem parseline_background (cmdline : string) (ws : list string) :
  cmdline <> EmptyString ->
  (p_bg (parseline cmdline)
   = match list.last (argument_tokens cmdline) with
     | None => true
     | Some a => Ascii.eqb (first_char a) "&"
     end
   /\ p_argv (parseline cmdline)
   = (if p_bg (parseline cmdline) then removelast (argument_tokens cmdline)
      else argument_tokens cmdline))
  /\ (ws <> [] -> Forall (fun w => plain_word w = true) ws ->
      argument_tokens (line_of ws) = ws
      /\ p_bg (parseline (line_of ws))
         = Ascii.eqb (first_char (default EmptyString (list.last ws))) "&").
Proof.
  intros _. unfold argument_tokens. split.
  - rewrite <- parse_words_chunks. unfold parseline.
    destruct (list.last (p_argv (parse_words cmdline))) as [a|] eqn:E.
    + simpl. auto.
    + simpl. split; [reflexivity|].
      apply last_None in E. rewrite E. reflexivity.
  - intros Hne Hws. rewrite <- parse_words_chunks. unfold parseline.
    rewrite (parse_words_plain ws Hne Hws). simpl. split; [reflexivity|].
    destruct (list.last ws) as [a|] eqn:E; [reflexivity|].
    apply last_None in E. congruence.
Qed.

Lemma parseline_background_witness :
  (p_bg (parseline ("ls >out &x >> log" ++ newline)) = true
   /\ p_argv (parseline ("ls >out &x >> log" ++ newline)) = ["ls"])
  /\ argument_tokens (line_of ["ls"; "-l"; "&x"]) = ["ls"; "-l"; "&x"]
  /\ p_bg (parseline (line_of ["ls"; "-l"; "&x"])) = true.
Proof.
  assert (Hne : ("ls >out &x >> log" ++ newline)%string <> EmptyString) by discriminate.
  destruct (parseline_background ("ls >out &x >> log" ++ newline) ["ls"; "-l"; "&x"] Hne)
    as [[H1 H2] H3].
  split.
  - rewrite H2, H1. vm_compute. split; reflexivity.
  - apply H3; [discriminate | repeat constructor].
Defined.

(** C8 as stated fails: the line [ls &x] ends in a token other than [&]
    and is reported background, and so is the blank line; and the line
    [ls > &] ends in the bare token [&], which is taken as the output file,
    and is reported foreground. *)
Lemma parseline_background_not_bare_amp :
  (spec_background ("ls &x" ++ newline) = false
   /\ p_bg (parseline ("ls &x" ++ newline)) = true)
  /\ (spec_background newline = false /\ p_bg (parseline newline) = true)
  /\ (spec_background ("ls > &" ++ newline) = true
   /\ p_bg (parseline ("ls > &" ++ newline)) = false).
Proof. vm_compute. repeat split. Qed.

(** ** Job numbers while the counter is above every job number

    What [deletejob] sets up and [addjob] relies on: as long as [nextjid] is
    larger than every job number in the table, an add keeps the job numbers
    of the occupied slots distinct; a remove restores that condition, and an
    add keeps it unless it resets the counter to 1. *)

Section Distinct.

Implicit Types (l a b : list job_t) (s : shell).

Lemma occupied_jids_app a b :
  occupied_jids (a ++ b) = (occupied_jids a ++ occupied_jids b)%list.
Proof. unfold occupied_jids. rewrite List.filter_app, List.map_app. reflexivity. Qed.

Lemma maxjid_app a b : maxjid (a ++ b) = Z.max (maxjid a) (maxjid b).
Proof.
  unfold maxjid. rewrite !maxjid_fold_right, List.map_app.
  pose proof (max_list_nonneg (map jid b)) as Hb.
  induction a as [|x t IH]; simpl; lia.
Qed.

Lemma maxjid_cons j l : maxjid (j :: l) = Z.max (jid j) (maxjid l).
Proof. unfold maxjid. rewrite !maxjid_fold_right. reflexivity. Qed.

Lemma maxjid_nonneg l : 0 <= maxjid l.
Proof. unfold maxjid. rewrite maxjid_fold_right. apply max_list_nonneg. Qed.

Lemma occupied_jids_le l z : z ∈ occupied_jids l -> z <= maxjid l.
Proof.
  induction l as [|x t IH]; unfold occupied_jids; simpl.
  - intros H. inversion H.
  - rewrite maxjid_cons. destruct (occupied x); simpl.
    + intros H. apply elem_of_cons in H as [->|H]; [lia|].
      specialize (IH H). lia.
    + intros H. specialize (IH H). lia.
Qed.

Lemma slot_split l i x :
  (i < length l)%nat ->
  exists a y b, l = (a ++ y :: b)%list /\ <[i := x]> l = (a ++ x :: b)%list
    /\ l !! i = Some y.
Proof.
  intros Hi. destruct (lookup_lt_is_Some_2 l i Hi) as [y Hy].
  exists (take i l), y, (drop (S i) l). split; [|split; [|exact Hy]].
  - symmetry. apply take_drop_middle, Hy.
  - apply insert_take_drop, Hi.
Qed.

Lemma clear_keeps_distinct l i :
  NoDup (occupied_jids l) -> NoDup (occupied_jids (<[i := clearjob]> l)).
Proof.
  intros H. destruct (decide (i < length l)%nat) as [Hi|Hi].
  - destruct (slot_split l i clearjob Hi) as (a & y & b & El & -> & _).
    rewrite El in H. rewrite occupied_jids_app in *.
    change (y :: b) with ([y] ++ b)%list in H. rewrite occupied_jids_app in H.
    change (clearjob :: b) with ([clearjob] ++ b)%list. rewrite occupied_jids_app.
    simpl. apply NoDup_app in H as (Ha & Hab & Hyb).
    apply NoDup_app in Hyb as (_ & _ & Hb).
    apply NoDup_app. split; [exact Ha|]. split; [|exact Hb].
    intros z Hz Hzb. apply (Hab z Hz). apply elem_of_app. right. exact Hzb.
  - rewrite list_insert_ge by lia. exact H.
Qed.

Lemma fill_keeps_distinct l i p n st c :
  p <> 0 -> pid (job_at l i) = 0 -> (i < length l)%nat -> maxjid l < n ->
  NoDup (occupied_jids l) ->
  NoDup (occupied_jids (<[i := mkjob p n st c]> l))
  /\ maxjid (<[i := mkjob p n st c]> l) <= n.
Proof.
  intros Hp Hy Hi Hmax H.
  destruct (slot_split l i (mkjob p n st c) Hi) as (a & y & b & El & -> & Hl).
  rewrite (job_at_lookup _ _ _ Hl) in Hy.
  assert (Eocc : occupied_jids l = (occupied_jids a ++ occupied_jids b)%list).
  { rewrite El. change (y :: b) with ([y] ++ b)%list.
    rewrite !occupied_jids_app. unfold occupied_jids at 2. simpl.
    unfold occupied. rewrite Hy. reflexivity. }
  split.
  - change (mkjob p n st c :: b) with ([mkjob p n st c] ++ b)%list.
    rewrite !occupied_jids_app. unfold occupied_jids at 2. simpl.
    unfold occupied at 1. simpl. apply Z.eqb_neq in Hp. rewrite Hp. simpl.
    rewrite <- Permutation_middle. apply NoDup_cons. split.
    + rewrite <- Eocc. intros Hin. apply occupied_jids_le in Hin. lia.
    + rewrite <- Eocc. exact H.
  - rewrite El in Hmax. rewrite maxjid_app, maxjid_cons in *. simpl. lia.
Qed.

Lemma deletejob_restores_counter s p :
  NoDup (occupied_jids (jobs s)) ->
  NoDup (occupied_jids (jobs (snd (deletejob s p))))
  /\ (fst (deletejob s p) = 1 ->
      maxjid (jobs (snd (deletejob s p))) < nextjid (snd (deletejob s p))).
Proof.
  intros H. unfold deletejob. destruct (p <? 1); [split; [exact H | discriminate]|].
  destruct (find_slot _ (jobs s)) as [i|]; simpl; [|split; [exact H | discriminate]].
  split; [apply clear_keeps_distinct, H | lia].
Qed.

Lemma addjob_keeps_distinct s p st c :
  NoDup (occupied_jids (jobs s)) -> maxjid (jobs s) < nextjid s ->
  NoDup (occupied_jids (jobs (snd (addjob s p st c))))
  /\ (nextjid s < MAXJOBS ->
      maxjid (jobs (snd (addjob s p st c))) < nextjid (snd (addjob s p st c))).
Proof.
  intros H Hmax. unfold addjob. destruct (p <? 1) eqn:Ep; [split; auto|].
  apply Z.ltb_ge in Ep.
  destruct (find_slot _ (jobs s)) as [i|] eqn:F; simpl; [|split; auto].
  destruct (find_slot_lookup _ _ _ F) as (y & Hy & Hpid). apply Z.eqb_eq in Hpid.
  destruct (fill_keeps_distinct (jobs s) i p (nextjid s) st c) as [Hnd Hle];
    [lia | rewrite (job_at_lookup _ _ _ Hy); exact Hpid
     | eapply find_slot_lt, F | exact Hmax | exact H |].
  destruct (verbose s); simpl; (split; [exact Hnd|]); intros Hw;
    (destruct (nextjid s + 1 >? MAXJOBS) eqn:G;
      [apply Z.gtb_lt in G; lia | lia]).
Qed.

End Distinct.

(** ** Empty slots carry job number 0

    The side condition on empty slots holds in every table that adds and
    removes build from the initial one. *)

Lemma addjob_empty_slots_clear (s : shell) (p : Z) (st : jstate) (c : string) :
  empty_slots_clear (jobs s) -> empty_slots_clear (jobs (snd (addjob s p st c))).
Proof.
  intros H. unfold addjob. destruct (p <? 1) eqn:Ep; [exact H|].
  apply Z.ltb_ge in Ep.
  destruct (find_slot _ (jobs s)) as [i|]; simpl; [|exact H].
  destruct (verbose s); simpl; (apply Forall_insert; [exact H | simpl; lia]).
Qed.

Lemma deletejob_empty_slots_clear (s : shell) (p : Z) :
  empty_slots_clear (jobs s) -> empty_slots_clear (jobs (snd (deletejob s p))).
Proof.
  intros H. unfold deletejob. destruct (p <? 1); [exact H|].
  destruct (find_slot _ (jobs s)) as [i|]; simpl; [|exact H].
  apply Forall_insert; [exact H | reflexivity].
Qed.

Lemma run_ops_empty_slots_clear (ops : list table_op) : forall s,
  empty_slots_clear (jobs s) -> empty_slots_clear (jobs (run_ops s ops)).
Proof.
  induction ops as [|o rest IH]; intros s H; [exact H|].
  apply IH. destruct o; simpl.
  - apply addjob_empty_slots_clear, H.
  - apply deletejob_empty_slots_clear, H.
Qed.

Lemma init_empty_slots_clear (v : bool) : empty_slots_clear (jobs (init_shell v)).
Proof. apply empty_slots_clear_check. reflexivity. Qed.

(** * Further properties of the job list *)

Section Lookup.

Implicit Types (l : list job_t) (s : shell) (P : job_t -> bool).

Lemma find_slot_first P l i :
  find_slot P l = Some i ->
  forall k y, (k < i)%nat -> l !! k = Some y -> P y = false.
Proof.
  revert i. induction l as [|x t IH]; intros i H k y Hk Hy; simpl in H; [discriminate|].
  destruct (P x) eqn:E.
  - injection H as <-. lia.
  - destruct (find_slot P t) as [m|] eqn:F; simpl in H; [|discriminate].
    injection H as <-. destruct k as [|k]; simpl in Hy.
    + injection Hy as <-. exact E.
    + apply (IH m eq_refl k y); [lia | exact Hy].
Qed.

Lemma find_slot_intro P l i j :
  l !! i = Some j -> P j = true ->
  (forall k y, (k < i)%nat -> l !! k = Some y -> P y = false) ->
  find_slot P l = Some i.
Proof.
  revert i. induction l as [|x t IH]; intros i Hj HP Hfirst; [discriminate|].
  destruct i as [|i]; simpl in *.
  - injection Hj as ->. rewrite HP. reflexivity.
  - rewrite (Hfirst 0%nat x ltac:(lia) eq_refl).
    rewrite (IH i Hj HP); [reflexivity|].
    intros k y Hk Hy. apply (Hfirst (S k) y); [lia | exact Hy].
Qed.

(** Lookup by a numeric field [f], as [getjobpid] and [getjobjid] do it. *)
Lemma lookup_field_some (f : job_t -> Z) l n i :
  (if n <? 1 then None else find_slot (fun j => f j =? n) l) = Some i <->
  1 <= n /\ (exists j, l !! i = Some j /\ f j = n)
  /\ forall k y, (k < i)%nat -> l !! k = Some y -> f y <> n.
Proof.
  destruct (n <? 1) eqn:E.
  - apply Z.ltb_lt in E. split; [discriminate | lia].
  - apply Z.ltb_ge in E. split.
    + intros H. split; [exact E|]. split.
      * destruct (find_slot_lookup _ _ _ H) as (j & Hj & Hf).
        exists j. split; [exact Hj | apply Z.eqb_eq, Hf].
      * intros k y Hk Hy. apply Z.eqb_neq.
        exact (find_slot_first _ _ _ H k y Hk Hy).
    + intros (_ & (j & Hj & Hf) & Hfirst).
      apply (find_slot_intro _ l i j Hj).
      * apply Z.eqb_eq, Hf.
      * intros k y Hk Hy. apply Z.eqb_neq. exact (Hfirst k y Hk Hy).
Qed.

Lemma lookup_field_none (f : job_t -> Z) l n :
  (if n <? 1 then None else find_slot (fun j => f j =? n) l) = None <->
  n < 1 \/ Forall (fun j => f j <> n) l.
Proof.
  destruct (n <? 1) eqn:E.
  - apply Z.ltb_lt in E. split; auto.
  - apply Z.ltb_ge in E. rewrite find_slot_none. split.
    + intros H. right. eapply Forall_impl; [exact H|].
      intros j Hj. simpl in Hj. apply Z.eqb_neq, Hj.
    + intros [H|H]; [lia|]. eapply Forall_impl; [exact H|].
      intros j Hj. simpl. apply Z.eqb_neq, Hj.
Qed.

Lemma find_slot_insert_fresh P l i x :
  Forall (fun j => P j = false) l -> P x = true -> (i < length l)%nat ->
  find_slot P (<[i := x]> l) = Some i.
Proof.
  intros Hall Hx Hi. apply (find_slot_intro P _ i x).
  - apply list_lookup_insert_eq, Hi.
  - exact Hx.
  - intros k y Hk Hy. rewrite list_lookup_insert_ne in Hy by lia.
    rewrite Forall_lookup in Hall. exact (Hall k y Hy).
Qed.

End Lookup.

(** X1.  [getjobpid] and [getjobjid] return the first slot, in slot order,
    whose pid (job number) equals the argument, and only for an argument of
    at least 1; they return NULL exactly when the argument is below 1 or no
    slot matches; and [pid2jid] is the job number of the slot [getjobpid]
    finds, 0 when there is none. *)
Theorem lookups_find_first_match (l : list job_t) (n : Z) :
  (forall i, getjobpid l n = Some i <->
     1 <= n /\ (exists j, l !! i = Some j /\ pid j = n)
     /\ forall k y, (k < i)%nat -> l !! k = Some y -> pid y <> n)
  /\ (getjobpid l n = None <-> n < 1 \/ Forall (fun j => pid j <> n) l)
  /\ (forall i, getjobjid l n = Some i <->
     1 <= n /\ (exists j, l !! i = Some j /\ jid j = n)
     /\ forall k y, (k < i)%nat -> l !! k = Some y -> jid y <> n)
  /\ (getjobjid l n = None <-> n < 1 \/ Forall (fun j => jid j <> n) l)
  /\ pid2jid l n = from_option (fun i => jid (job_at l i)) 0 (getjobpid l n).
Proof.
  split; [intros i; apply (lookup_field_some pid)|].
  split; [apply (lookup_field_none pid)|].
  split; [intros i; apply (lookup_field_some jid)|].
  split; [apply (lookup_field_none jid)|].
  unfold pid2jid, getjobpid. destruct (n <? 1); [reflexivity|].
  destruct (find_slot _ l) as [i|] eqn:F; [|reflexivity]. simpl.
  destruct (find_slot_lookup _ _ _ F) as (j & Hj & _).
  rewrite (job_at_lookup _ _ _ Hj), Hj. reflexivity.
Qed.

(** X2.  [maxjid] is the largest job number in the table: it bounds the job
    number of every slot, it is never negative, and unless it is 0 some
    slot carries it. *)
Theorem maxjid_is_largest (l : list job_t) :
  (forall j, j ∈ l -> jid j <= maxjid l)
  /\ 0 <= maxjid l
  /\ (maxjid l = 0 \/ exists j, j ∈ l /\ jid j = maxjid l).
Proof.
  split; [|split; [apply maxjid_nonneg|]].
  - induction l as [|x t IH]; intros j Hj; [inversion Hj|].
    rewrite maxjid_cons. apply elem_of_cons in Hj as [->|Hj]; [lia|].
    specialize (IH j Hj). lia.
  - induction l as [|x t IH]; [left; reflexivity|].
    rewrite maxjid_cons. pose proof (maxjid_nonneg t) as Hn.
    destruct (Z.max_spec (jid x) (maxjid t)) as [[Hlt ->]|[Hle ->]].
    + destruct IH as [H0|(j & Hj & E)]; [left; exact H0|].
      right. exists j. split; [apply elem_of_cons; right; exact Hj | exact E].
    + right. exists x. split; [apply elem_of_cons; left; reflexivity | reflexivity].
Qed.

(** X3.  [addjob] succeeds exactly when the pid is at least 1 and some slot
    is empty, and it never returns anything but 0 or 1. *)
Theorem addjob_succeeds_iff (s : shell) (p : Z) (st : jstate) (c : string) :
  (fst (addjob s p st c) = 1 <-> 1 <= p /\ exists j, j ∈ jobs s /\ pid j = 0)
  /\ (fst (addjob s p st c) = 0 \/ fst (addjob s p st c) = 1).
Proof.
  unfold addjob. destruct (p <? 1) eqn:Ep.
  { apply Z.ltb_lt in Ep. simpl. split; [|left; reflexivity].
    split; [discriminate | lia]. }
  apply Z.ltb_ge in Ep.
  destruct (find_slot _ (jobs s)) as [i|] eqn:F; simpl.
  - split; [|right; reflexivity]. split; [|reflexivity].
    intros _. split; [exact Ep|].
    destruct (find_slot_lookup _ _ _ F) as (j & Hj & Hp).
    exists j. split; [eapply list_elem_of_lookup_2, Hj | apply Z.eqb_eq, Hp].
  - split; [|left; reflexivity]. split; [discriminate|].
    intros (_ & j & Hj & Hp). apply find_slot_none in F.
    rewrite Forall_forall in F. specialize (F j Hj). simpl in F.
    apply Z.eqb_neq in F. contradiction.
Qed.

(** X4.  An added job can be looked up: after a successful [addjob] of a
    pid that was not in the table, [getjobpid] finds the slot that now
    holds exactly the pid, the old value of [nextjid], the state and the
    command line given; [pid2jid] gives that job number; and every other
    slot is as before. *)
Theorem addjob_then_lookup (s : shell) (p : Z) (st : jstate) (c : string) (s' : shell) :
  getjobpid (jobs s) p = None -> addjob s p st c = (1, s') ->
  exists i, getjobpid (jobs s') p = Some i
    /\ job_at (jobs s') i = mkjob p (nextjid s) st c
    /\ pid2jid (jobs s') p = nextjid s
    /\ forall k, k <> i -> jobs s' !! k = jobs s !! k.
Proof.
  intros Hnone Hadd.
  destruct (addjob_success _ _ _ _ _ Hadd) as (i & Hi & _ & Hj & _).
  assert (Hp : 1 <= p).
  { unfold addjob in Hadd. destruct (p <? 1) eqn:E; [discriminate|].
    apply Z.ltb_ge, E. }
  assert (Hfree : Forall (fun j => (pid j =? p) = false) (jobs s)).
  { apply getjobpid_none in Hnone as [H|H]; [lia|]. apply find_slot_none, H. }
  assert (G : getjobpid (jobs s') p = Some i).
  { unfold getjobpid. destruct (p <? 1) eqn:E; [apply Z.ltb_lt in E; lia|].
    rewrite Hj. apply find_slot_insert_fresh; [exact Hfree | apply Z.eqb_refl | exact Hi]. }
  assert (A : job_at (jobs s') i = mkjob p (nextjid s) st c).
  { rewrite Hj. unfold job_at. rewrite list_lookup_insert_eq by exact Hi. reflexivity. }
  exists i. split; [exact G|]. split; [exact A|]. split.
  - unfold pid2jid. unfold getjobpid in G. destruct (p <? 1); [discriminate|].
    rewrite G, Hj, list_lookup_insert_eq by exact Hi. reflexivity.
  - intros k Hk. rewrite Hj. apply list_lookup_insert_ne. congruence.
Qed.

(** X5.  Add, then remove: when a pid that was not in the table is added
    and then deleted, the delete succeeds, the pid is no longer found, and
    the table is the one before the add with the slot used in between
    cleared. *)
Theorem add_then_remove_not_found (s : shell) (p : Z) (st : jstate) (c : string)
    (s1 : shell) :
  getjobpid (jobs s) p = None -> addjob s p st c = (1, s1) ->
  fst (deletejob s1 p) = 1
  /\ getjobpid (jobs (snd (deletejob s1 p))) p = None
  /\ exists i, pid (job_at (jobs s) i) = 0
       /\ jobs (snd (deletejob s1 p)) = <[i := clearjob]> (jobs s).
Proof.
  intros Hnone Hadd.
  destruct (addjob_success _ _ _ _ _ Hadd) as (i & Hi & Hempty & Hj & _).
  assert (Hp : 1 <= p).
  { unfold addjob in Hadd. destruct (p <? 1) eqn:E; [discriminate|].
    apply Z.ltb_ge, E. }
  assert (Hfree : Forall (fun j => (pid j =? p) = false) (jobs s)).
  { apply getjobpid_none in Hnone as [H|H]; [lia|]. apply find_slot_none, H. }
  assert (G : getjobpid (jobs s1) p = Some i).
  { unfold getjobpid. destruct (p <? 1) eqn:E; [apply Z.ltb_lt in E; lia|].
    rewrite Hj. apply find_slot_insert_fresh; [exact Hfree | apply Z.eqb_refl | exact Hi]. }
  rewrite (deletejob_found s1 p i G). simpl.
  assert (E : <[i := clearjob]> (jobs s1) = <[i := clearjob]> (jobs s)).
  { rewrite Hj. apply list_insert_insert_eq. }
  split; [reflexivity|]. split.
  - rewrite E. unfold getjobpid. destruct (p <? 1); [reflexivity|].
    apply find_slot_none. apply Forall_insert; [exact Hfree|].
    change ((0 =? p) = false). apply Z.eqb_neq. lia.
  - exists i. split; [exact Hempty | exact E].
Qed.

(** X6.  [deletejob] fails exactly when the pid is below 1 or in no slot,
    and then changes nothing; when it succeeds it clears the first slot
    holding the pid and leaves every other slot as it was. *)
Theorem deletejob_removes_first_match (s : shell) (p : Z) :
  (fst (deletejob s p) = 0 <-> getjobpid (jobs s) p = None)
  /\ (fst (deletejob s p) = 0 -> snd (deletejob s p) = s)
  /\ (forall i, getjobpid (jobs s) p = Some i ->
        fst (deletejob s p) = 1
        /\ jobs (snd (deletejob s p)) !! i = Some clearjob
        /\ forall k, k <> i -> jobs (snd (deletejob s p)) !! k = jobs s !! k).
Proof.
  destruct (getjobpid (jobs s) p) as [i|] eqn:G.
  - rewrite (deletejob_found s p i G). simpl.
    split; [split; discriminate|]. split; [discriminate|].
    intros i' E. injection E as <-. split; [reflexivity|]. split.
    + apply list_lookup_insert_eq. eapply getjobpid_lt, G.
    + intros k Hk. apply list_lookup_insert_ne. congruence.
  - rewrite (deletejob_not_found s p G). simpl.
    split; [split; reflexivity|]. split; [reflexivity | discriminate].
Qed.

Lemma addjob_then_lookup_witness :
  exists i, getjobpid (jobs (snd (addjob one_stopped 200 BG "ls"))) 200 = Some i
    /\ job_at (jobs (snd (addjob one_stopped 200 BG "ls"))) i = mkjob 200 2 BG "ls"
    /\ pid2jid (jobs (snd (addjob one_stopped 200 BG "ls"))) 200 = 2
    /\ forall k, k <> i ->
         jobs (snd (addjob one_stopped 200 BG "ls")) !! k = jobs one_stopped !! k.
Proof.
  apply (addjob_then_lookup one_stopped 200 BG "ls"); reflexivity.
Defined.

Lemma add_then_remove_not_found_witness :
  fst (deletejob (snd (addjob one_stopped 200 BG "ls")) 200) = 1
  /\ getjobpid (jobs (snd (deletejob (snd (addjob one_stopped 200 BG "ls")) 200))) 200 = None
  /\ exists i, pid (job_at (jobs one_stopped) i) = 0
       /\ jobs (snd (deletejob (snd (addjob one_stopped 200 BG "ls")) 200))
          = <[i := clearjob]> (jobs one_stopped).
Proof.
  apply (add_then_remove_not_found one_stopped 200 BG "ls"); reflexivity.
Defined.

Lemma deletejob_removes_first_match_witness :
  fst (deletejob one_stopped 100) = 1
  /\ jobs (snd (deletejob one_stopped 100)) !! 0%nat = Some clearjob
  /\ forall k, k <> 0%nat ->
       jobs (snd (deletejob one_stopped 100)) !! k = jobs one_stopped !! k.
Proof.
  destruct (deletejob_removes_first_match one_stopped 100) as (_ & _ & H).
  apply (H 0%nat). reflexivity.
Defined.

(** ** Well-formed tables *)

Section WellFormed.

Implicit Types (l : list job_t) (s : shell).

Lemma table_ok_same s s' :
  jobs s' = jobs s -> nextjid s' = nextjid s -> table_ok s -> table_ok s'.
Proof. unfold table_ok. intros -> ->. auto. Qed.

Lemma slot_ok_set_state j st : st <> UNDEF -> slot_ok j -> slot_ok (set_state j st).
Proof.
  intros Hst [(Hp & Hj & Hc)|(Hp & Hj & _)]; [left | right]; simpl; auto.
Qed.

Lemma table_ok_alter s i st :
  st <> UNDEF -> table_ok s ->
  table_ok (set_jobs s (alter (fun j => set_state j st) i (jobs s))).
Proof.
  intros Hst (Hlen & Hn & Hall). unfold table_ok. simpl.
  rewrite length_alter. split; [exact Hlen|]. split; [exact Hn|].
  apply Forall_alter; [exact Hall|]. intros j _. apply slot_ok_set_state, Hst.
Qed.

Lemma addjob_table_ok s p st c :
  st <> UNDEF -> table_ok s -> table_ok (snd (addjob s p st c)).
Proof.
  intros Hst (Hlen & Hn & Hall). unfold addjob.
  destruct (p <? 1) eqn:Ep; [repeat split; assumption|]. apply Z.ltb_ge in Ep.
  destruct (find_slot _ (jobs s)) as [i|]; simpl; [|repeat split; assumption].
  assert (G : table_ok (set_nextjid
                (set_jobs s (<[i := mkjob p (nextjid s) st c]> (jobs s)))
                (if nextjid s + 1 >? MAXJOBS then 1 else nextjid s + 1))).
  { unfold table_ok. simpl. rewrite length_insert. split; [exact Hlen|]. split.
    - destruct (nextjid s + 1 >? MAXJOBS); lia.
    - apply Forall_insert; [exact Hall|]. right. simpl. auto. }
  destruct (verbose s); [eapply table_ok_same; [| |exact G]; reflexivity | exact G].
Qed.

Lemma deletejob_table_ok s p : table_ok s -> table_ok (snd (deletejob s p)).
Proof.
  intros (Hlen & Hn & Hall). unfold deletejob.
  destruct (p <? 1); [repeat split; assumption|].
  destruct (find_slot _ (jobs s)) as [i|]; simpl; [|repeat split; assumption].
  unfold table_ok. simpl. rewrite length_insert. split; [exact Hlen|]. split.
  - pose proof (maxjid_nonneg (<[i := clearjob]> (jobs s))). lia.
  - apply Forall_insert; [exact Hall|]. left. auto.
Qed.

Lemma reap_one_table_ok s p status : table_ok s -> table_ok (reap_one s p status).
Proof.
  intros H. destruct status; simpl.
  - destruct (getjobpid (jobs s) p) as [i|]; [|exact H].
    eapply table_ok_same; [| |apply (table_ok_alter s i ST); [discriminate | exact H]];
      reflexivity.
  - destruct (getjobpid (jobs s) p) as [i|]; [|exact H].
    apply deletejob_table_ok. eapply table_ok_same; [| |exact H]; reflexivity.
  - apply deletejob_table_ok, H.
  - exact H.
Qed.

Lemma sigchld_handler_table_ok pending : forall s,
  table_ok s -> table_ok (sigchld_handler s pending).
Proof.
  induction pending as [|[p status] rest IH]; intros s H; simpl; [exact H|].
  destruct (p >? 0); [|exact H]. apply IH, reap_one_table_ok, H.
Qed.

Lemma do_bgfg_resume_table_ok k s cmd i p :
  table_ok s -> table_ok (snd (do_bgfg_resume k s cmd i p)).
Proof.
  intros H. unfold do_bgfg_resume. destruct k; simpl;
    [|eapply table_ok_same; [| |exact H]; reflexivity].
  destruct (String.eqb cmd "fg"); simpl.
  - eapply table_ok_same; [| |apply (table_ok_alter s i FG); [discriminate | exact H]];
      reflexivity.
  - destruct (String.eqb cmd "bg"); simpl.
    + eapply table_ok_same; [| |apply (table_ok_alter s i BG); [discriminate | exact H]];
        reflexivity.
    + eapply table_ok_same; [| |exact H]; reflexivity.
Qed.

Lemma do_bgfg_lookup_nextjid s argv s' :
  do_bgfg_lookup s argv = inl s' -> nextjid s' = nextjid s.
Proof.
  unfold do_bgfg_lookup. destruct (argv !! 1%nat) as [id|].
  - destruct (Ascii.eqb (first_char id) "%").
    + destruct (getjobjid _ _); intros H; [discriminate|]. injection H as <-. reflexivity.
    + destruct (isdigit (first_char id)).
      * destruct (getjobpid _ _); intros H; [discriminate|]. injection H as <-. reflexivity.
      * intros H. injection H as <-. reflexivity.
  - intros H. injection H as <-. reflexivity.
Qed.

Lemma eval_table_ok w s cmdline : table_ok s -> table_ok (ev_shell (eval w s cmdline)).
Proof.
  intros H. unfold eval.
  destruct (Z.of_nat (length (parsepipe cmdline)) =? 1).
  - destruct (p_argv (parseline cmdline)) as [|a0 args] eqn:Eargv; [exact H|].
    unfold builtin_cmd. simpl hd.
    destruct (String.eqb a0 "quit"); [exact H|].
    destruct (String.eqb a0 "jobs"); [exact H|].
    destruct (String.eqb a0 "bg" || String.eqb a0 "fg").
    + unfold do_bgfg. destruct (do_bgfg_lookup s (a0 :: args)) as [s'|[i p]] eqn:L.
      * simpl. eapply table_ok_same; [| |exact H].
        -- apply (do_bgfg_lookup_jobs _ _ _ L).
        -- apply (do_bgfg_lookup_nextjid _ _ _ L).
      * pose proof (do_bgfg_resume_table_ok (kill_ok w) s (hd "" (a0 :: args)) i p H) as G.
        destruct (do_bgfg_resume _ _ _ _ _) as [o s']. exact G.
    + destruct (p_bg (parseline cmdline)); simpl.
      * eapply table_ok_same; [| |apply (addjob_table_ok s (fork_ret w 0) BG cmdline);
          [discriminate | exact H]]; reflexivity.
      * apply addjob_table_ok; [discriminate | exact H].
  - destruct (find _ _); [eapply table_ok_same; [| |exact H]; reflexivity | exact H].
Qed.

Lemma forward_signal_nextjid sig msg k s :
  nextjid (forward_signal sig msg k s) = nextjid s.
Proof. unfold forward_signal. destruct (negb _), k; reflexivity. Qed.

Lemma step_table_ok c s c' s' : step (c, s) (c', s') -> table_ok s -> table_ok s'.
Proof.
  intros Hstep. inversion Hstep; subst; intros H.
  - apply eval_table_ok, H.
  - exact H.
  - exact H.
  - apply do_bgfg_resume_table_ok, H.
  - exact H.
  - apply sigchld_handler_table_ok, H.
  - eapply table_ok_same; [apply forward_signal_jobs | apply forward_signal_nextjid | exact H].
  - eapply table_ok_same; [apply forward_signal_jobs | apply forward_signal_nextjid | exact H].
Qed.

Lemma init_table_ok v : table_ok (init_shell v).
Proof.
  unfold table_ok. split; [reflexivity|]. split; [simpl; lia|].
  apply Forall_forall. intros j Hj. apply elem_of_replicate in Hj as [-> _].
  left. auto.
Qed.

Lemma reachable_table_ok_aux v st : reachable v st -> table_ok (snd st).
Proof.
  unfold reachable. revert st.
  apply (rtc_ind_r (fun st => table_ok (snd st))).
  - apply init_table_ok.
  - intros [c s] [c' s'] _ Hstep IH. simpl in *. eapply step_table_ok; eassumption.
Qed.

End WellFormed.

(** X7.  The table keeps its shape in every state the interpreter can
    reach: it has exactly MAXJOBS slots, [nextjid] is at least 1, and every
    slot is either cleared (pid 0, job number 0, empty command line) or
    holds a pid of at least 1, a job number of at least 1 and a state other
    than UNDEF. *)
Theorem reachable_table_well_formed (v : bool) (c : ctl) (s : shell) :
  reachable v (c, s) -> table_ok s.
Proof. intros H. exact (reachable_table_ok_aux v (c, s) H). Qed.

Lemma reachable_table_well_formed_witness : table_ok (ev_shell foregrounded).
Proof.
  apply (reachable_table_well_formed false (ctl_of (ev_outcome foregrounded))).
  unfold reachable.
  apply rtc_l with (AtPrompt, ev_shell launched).
  - change AtPrompt with (ctl_of (ev_outcome launched)) at 2. apply step_eval.
  - apply rtc_once. apply step_eval.
Defined.

(** ** listjobs *)

Lemma listjobs_from_elem (l : list job_t) : forall (n i : nat) (j : job_t),
  MsgListed i j ∈ listjobs_from n l <->
  exists k, i = (n + k)%nat /\ l !! k = Some j /\ pid j <> 0.
Proof.
  induction l as [|x t IH]; intros n i j; simpl.
  - split; [intros H; inversion H | intros (k & _ & H & _); discriminate].
  - rewrite elem_of_app, IH. split.
    + intros [H|(k & -> & Hk & Hp)].
      * destruct (pid x =? 0) eqn:E; simpl in H; [inversion H|].
        apply list_elem_of_singleton in H. injection H as -> ->.
        exists 0%nat. split; [lia|]. split; [reflexivity | apply Z.eqb_neq, E].
      * exists (S k). split; [lia|]. auto.
    + intros (k & -> & Hk & Hp). destruct k as [|k]; simpl in Hk.
      * injection Hk as ->. left. apply Z.eqb_neq in Hp. rewrite Hp. simpl.
        replace (n + 0)%nat with n by lia. apply list_elem_of_here.
      * right. exists k. split; [lia|]. auto.
Qed.

Lemma listjobs_from_shape (l : list job_t) : forall (n : nat),
  Forall (fun e => exists i j, e = MsgListed i j) (listjobs_from n l)
  /\ length (listjobs_from n l) = length (List.filter occupied l).
Proof.
  induction l as [|x t IH]; intros n; simpl; [split; [constructor | reflexivity]|].
  destruct (IH (S n)) as [Hall Hlen]. unfold occupied at 1.
  destruct (pid x =? 0); simpl.
  - split; [exact Hall | exact Hlen].
  - split; [constructor; [eauto | exact Hall] | rewrite Hlen; reflexivity].
Qed.

(** X8.  [listjobs] leaves the table alone and prints one line for each
    occupied slot and nothing else: a line for slot [i] with job [j] is
    printed exactly when slot [i] holds [j] and the pid of [j] is not 0, and
    the number of lines is the number of occupied slots. *)
Theorem listjobs_lists_occupied_slots (s : shell) :
  jobs (listjobs s) = jobs s /\ nextjid (listjobs s) = nextjid s
  /\ out (listjobs s) = (out s ++ listjobs_from 0 (jobs s))%list
  /\ (forall i j, MsgListed i j ∈ listjobs_from 0 (jobs s) <->
        jobs s !! i = Some j /\ pid j <> 0)
  /\ Forall (fun e => exists i j, e = MsgListed i j) (listjobs_from 0 (jobs s))
  /\ length (listjobs_from 0 (jobs s)) = length (List.filter occupied (jobs s)).
Proof.
  split; [reflexivity|]. split; [reflexivity|]. split; [reflexivity|]. split.
  - intros i j. rewrite listjobs_from_elem. split.
    + intros (k & -> & H). exact H.
    + intros H. exists i. split; [reflexivity | exact H].
  - apply listjobs_from_shape.
Qed.

(** ** The foreground job and the signals sent to it *)

Section ForegroundJob.

Implicit Types (l : list job_t) (s : shell) (j : job_t).

Lemma is_fg_state j : is_fg j = true <-> state j = FG.
Proof. unfold is_fg. destruct (state j); cbv; split; congruence. Qed.

Lemma count_fg_unique l : forall i k y j,
  (count_fg l <= 1)%nat -> l !! i = Some y -> l !! k = Some j ->
  is_fg y = true -> is_fg j = true -> i = k.
Proof.
  induction l as [|x t IH]; intros i k y j Hc Hi Hk Hy Hj; [discriminate|].
  simpl in Hc. destruct i as [|i], k as [|k]; simpl in Hi, Hk.
  - reflexivity.
  - injection Hi as ->. rewrite Hy in Hc.
    assert (H0 : count_fg t = 0%nat) by lia. apply count_fg_zero in H0.
    rewrite Forall_lookup in H0. rewrite (H0 k j Hk) in Hj. discriminate.
  - injection Hk as ->. rewrite Hj in Hc.
    assert (H0 : count_fg t = 0%nat) by lia. apply count_fg_zero in H0.
    rewrite Forall_lookup in H0. rewrite (H0 i y Hi) in Hy. discriminate.
  - f_equal. apply (IH i k y j); auto. lia.
Qed.

Lemma fgpid_none l : count_fg l = 0%nat -> fgpid l = 0.
Proof.
  intros H. apply count_fg_zero in H. unfold fgpid.
  change (fun j => jstate_eqb (state j) FG) with is_fg.
  apply find_slot_none in H. rewrite H. reflexivity.
Qed.

Lemma fgpid_the_one l j :
  (count_fg l <= 1)%nat -> j ∈ l -> state j = FG -> fgpid l = pid j.
Proof.
  intros Hc Hj Hst. apply list_elem_of_lookup_1 in Hj as [k Hk].
  apply is_fg_state in Hst. unfold fgpid.
  change (fun j => jstate_eqb (state j) FG) with is_fg.
  destruct (find_slot is_fg l) as [i|] eqn:F.
  - destruct (find_slot_lookup _ _ _ F) as (y & Hy & Hfy).
    assert (E : i = k) by (eapply count_fg_unique; eassumption). subst i.
    rewrite Hk. reflexivity.
  - apply find_slot_none in F. rewrite Forall_lookup in F.
    rewrite (F k j Hk) in Hst. discriminate.
Qed.

Lemma count_fg_after_write l l' i x :
  (count_fg l <= 1)%nat ->
  is_fg (job_at l i) = true -> is_fg x = false ->
  length l' = length l -> l' !! i = Some x ->
  (forall k, k <> i -> l' !! k = l !! k) ->
  count_fg l' = 0%nat.
Proof.
  intros Hc Hfg Hx Hlen Hi Hother. apply count_fg_zero, Forall_lookup.
  intros k z Hz. destruct (decide (k = i)) as [->|Hne].
  - rewrite Hi in Hz. injection Hz as <-. exact Hx.
  - rewrite (Hother k Hne) in Hz.
    destruct (is_fg z) eqn:E; [|reflexivity]. exfalso. apply Hne.
    unfold job_at in Hfg. destruct (l !! i) as [y|] eqn:Hy; [|discriminate].
    simpl in Hfg. symmetry. eapply (count_fg_unique l i k y z); eassumption.
Qed.

End ForegroundJob.

(** X10.  [fgpid] returns 0 when no slot is FG, and when at most one slot
    is FG -- which holds in every reachable state -- it returns the pid of
    that slot. *)
Theorem fgpid_is_the_foreground_pid (l : list job_t) :
  (count_fg l = 0%nat -> fgpid l = 0)
  /\ ((count_fg l <= 1)%nat ->
      forall j, j ∈ l -> state j = FG -> fgpid l = pid j).
Proof. split; [apply fgpid_none | intros H j; apply fgpid_the_one, H]. Qed.

Lemma fgpid_is_the_foreground_pid_witness :
  fgpid (jobs (ev_shell foregrounded)) = 500.
Proof.
  destruct (fgpid_is_the_foreground_pid (jobs (ev_shell foregrounded))) as [_ H].
  apply (H ltac:(vm_compute; lia) (mkjob 500 1 FG ("sleep 5 &" ++ newline))).
  - vm_compute. apply list_elem_of_here.
  - reflexivity.
Defined.

(** X11.  The SIGINT and SIGTSTP handlers never touch the job table.  With
    no foreground job they do nothing at all; with one foreground job they
    send their signal to the negated pid of that job, that is to its whole
    process group, and to nothing else. *)
Theorem signals_go_to_foreground_group (k : bool) (s : shell) :
  (jobs (sigint_handler k s) = jobs s /\ nextjid (sigint_handler k s) = nextjid s
   /\ jobs (sigtstp_handler k s) = jobs s /\ nextjid (sigtstp_handler k s) = nextjid s)
  /\ (count_fg (jobs s) = 0%nat ->
      sigint_handler k s = s /\ sigtstp_handler k s = s)
  /\ ((count_fg (jobs s) <= 1)%nat ->
      forall j, j ∈ jobs s -> state j = FG -> pid j <> 0 ->
      sigint_handler true s = emit s (Kill (- pid j) SIGINT)
      /\ sigtstp_handler true s = emit s (Kill (- pid j) SIGTSTP)).
Proof.
  unfold sigint_handler, sigtstp_handler. split; [|split].
  - rewrite !forward_signal_jobs, !forward_signal_nextjid. auto.
  - intros H0. unfold forward_signal. rewrite (fgpid_none _ H0). auto.
  - intros Hc j Hj Hst Hp. unfold forward_signal.
    rewrite (fgpid_the_one _ j Hc Hj Hst).
    apply Z.eqb_neq in Hp. rewrite Hp. auto.
Qed.

Lemma signals_go_to_foreground_group_witness :
  (sigint_handler true (init_shell false) = init_shell false
   /\ sigtstp_handler true (init_shell false) = init_shell false)
  /\ (sigint_handler true (ev_shell foregrounded)
      = emit (ev_shell foregrounded) (Kill (-500) SIGINT)
   /\ sigtstp_handler true (ev_shell foregrounded)
      = emit (ev_shell foregrounded) (Kill (-500) SIGTSTP)).
Proof.
  destruct (signals_go_to_foreground_group true (init_shell false)) as (_ & H0 & _).
  destruct (signals_go_to_foreground_group true (ev_shell foregrounded)) as (_ & _ & H1).
  split; [apply H0; reflexivity|].
  apply (H1 ltac:(vm_compute; lia) (mkjob 500 1 FG ("sleep 5 &" ++ newline))).
  - vm_compute. apply list_elem_of_here.
  - reflexivity.
  - simpl. lia.
Defined.

(** X12.  Reaping the foreground job releases [waitfg]: when at most one
    slot is FG and the record found for the reaped pid is that slot, then
    after the reaper's round for a stopped, killed or exited child no slot
    is FG and the loop test of [waitfg] for that pid is false. *)
Theorem reaping_foreground_job_ends_waitfg (s : shell) (p : Z) (i : nat)
    (status : wstatus) :
  status <> WOther -> (count_fg (jobs s) <= 1)%nat ->
  getjobpid (jobs s) p = Some i -> state (job_at (jobs s) i) = FG ->
  count_fg (jobs (reap_one s p status)) = 0%nat
  /\ waitfg_polls p (jobs (reap_one s p status)) = false.
Proof.
  intros Hst Hc G Hfg. apply is_fg_state in Hfg.
  pose proof (getjobpid_lt _ _ _ G) as Hi.
  pose proof (getjobpid_some _ _ _ G) as (Hp & _ & _).
  assert (H0 : count_fg (jobs (reap_one s p status)) = 0%nat).
  { destruct status; simpl; [| | |congruence].
    - rewrite G. simpl.
      destruct (lookup_lt_is_Some_2 _ _ Hi) as [y Hy].
      apply (count_fg_after_write (jobs s) _ i (set_state y ST) Hc Hfg eq_refl).
      + apply length_alter.
      + rewrite list_lookup_alter_eq, Hy. reflexivity.
      + intros k Hk. apply list_lookup_alter_ne. congruence.
    - rewrite G. rewrite (deletejob_found (emit s _) p i G). simpl.
      apply (count_fg_after_write (jobs s) _ i clearjob Hc Hfg eq_refl).
      + apply length_insert.
      + apply list_lookup_insert_eq, Hi.
      + intros k Hk. apply list_lookup_insert_ne. congruence.
    - rewrite (deletejob_found s p i G). simpl.
      apply (count_fg_after_write (jobs s) _ i clearjob Hc Hfg eq_refl).
      + apply length_insert.
      + apply list_lookup_insert_eq, Hi.
      + intros k Hk. apply list_lookup_insert_ne. congruence. }
  split; [exact H0|]. unfold waitfg_polls. rewrite (fgpid_none _ H0).
  apply Z.eqb_neq. lia.
Qed.

Lemma reaping_foreground_job_ends_waitfg_witness :
  count_fg (jobs (reap_one (ev_shell foregrounded) 500 (WStopped 20))) = 0%nat
  /\ waitfg_polls 500 (jobs (reap_one (ev_shell foregrounded) 500 (WStopped 20))) = false.
Proof.
  apply (reaping_foreground_job_ends_waitfg (ev_shell foregrounded) 500 0%nat).
  - discriminate.
  - vm_compute. lia.
  - vm_compute. reflexivity.
  - vm_compute. reflexivity.
Defined.

(** ** The reaper as a whole *)

(** X13.  The handler drains every notification.  Over a batch of results
    whose pids are all positive it runs the round for each of them, in
    order, each on the state the previous one left; a run over two batches
    is the run over the first followed by the run over the second; and the
    first pid that is not positive ends the loop, whatever follows it. *)
Theorem sigchld_handler_drains (a b : list (Z * wstatus)) (s : shell) :
  Forall (fun n => 0 < fst n) a ->
  sigchld_handler s a = fold_left (fun acc n => reap_one acc (fst n) (snd n)) a s
  /\ sigchld_handler s (a ++ b) = sigchld_handler (sigchld_handler s a) b
  /\ forall p status, p <= 0 ->
       sigchld_handler s (a ++ (p, status) :: b) = sigchld_handler s a.
Proof.
  intros Ha. revert s. induction Ha as [|[q st] rest Hq _ IH]; intros s; simpl.
  - split; [reflexivity|]. split; [reflexivity|]. intros p status Hp.
    destruct (p >? 0) eqn:E; [apply Z.gtb_lt in E; lia | reflexivity].
  - simpl in Hq. apply Z.gtb_lt in Hq. rewrite Hq. apply IH.
Qed.

Lemma sigchld_handler_drains_witness :
  out (sigchld_handler full16
         ([(100, WExited 0); (101, WStopped 20)] ++ (0, WOther) :: [(102, WSignaled 9)]))
  = [MsgStopped 2 101 20]
  /\ map pid (jobs (sigchld_handler full16
                      ([(100, WExited 0); (101, WStopped 20)] ++ [(102, WSignaled 9)])))
     = [0; 101; 0; 103; 104; 105; 106; 107; 108; 109; 110; 111; 112; 113; 114; 115].
Proof.
  destruct (sigchld_handler_drains [(100, WExited 0); (101, WStopped 20)]
              [(102, WSignaled 9)] full16) as (H1 & H2 & H3).
  - repeat constructor.
  - split.
    + rewrite (H3 0 WOther ltac:(lia)), H1. vm_compute. reflexivity.
    + rewrite H2, H1. vm_compute. reflexivity.
Defined.

Section ReaperFrame.

Implicit Types (l : list job_t) (s : shell).

Lemma reaped_from_trans_elem (x y z : job_t) :
  reaped_from x y -> reaped_from y z -> reaped_from x z.
Proof.
  intros [->|(Hp & Hy)] Hyz; [exact Hyz|].
  destruct Hyz as [->|(Hpy & Hz)]; [right; auto|].
  destruct Hy as [-> | ->]; simpl in Hpy; [lia|].
  right. split; [exact Hp|]. destruct Hz as [-> | ->]; auto.
Qed.

Lemma reaped_from_trans l1 l2 l3 :
  Forall2 reaped_from l1 l2 -> Forall2 reaped_from l2 l3 -> Forall2 reaped_from l1 l3.
Proof.
  intros H1 H2. apply Forall2_same_length_lookup in H1 as [L1 P1].
  apply Forall2_same_length_lookup in H2 as [L2 P2].
  apply Forall2_same_length_lookup_2; [congruence|].
  intros i x z Hx Hz.
  destruct (lookup_lt_is_Some_2 l2 i) as [y Hy].
  { rewrite <- L1. eapply lookup_lt_Some, Hx. }
  eapply reaped_from_trans_elem; [apply (P1 i x y) | apply (P2 i y z)]; assumption.
Qed.

Lemma reaped_from_same l : Forall2 reaped_from l l.
Proof.
  apply Forall2_same_length_lookup_2; [reflexivity|].
  intros i x y Hx Hy. left. congruence.
Qed.

Lemma reaped_from_write l p i (f : job_t -> job_t) :
  getjobpid l p = Some i ->
  (forall j, f j = clearjob \/ f j = set_state j ST) ->
  Forall2 reaped_from l (alter f i l).
Proof.
  intros G Hf. pose proof (getjobpid_some _ _ _ G) as (Hp & _ & Epid).
  apply Forall2_same_length_lookup_2; [symmetry; apply length_alter|].
  intros k x y Hx Hy. destruct (decide (i = k)) as [<-|Hne].
  - rewrite list_lookup_alter_eq, Hx in Hy. injection Hy as <-.
    right. rewrite (job_at_lookup _ _ _ Hx) in Epid. split; [lia | apply Hf].
  - rewrite list_lookup_alter_ne in Hy by exact Hne. left. congruence.
Qed.

Lemma insert_as_alter l i (x : job_t) : <[i := x]> l = alter (fun _ => x) i l.
Proof.
  revert i. induction l as [|y t IH]; intros [|i]; simpl; try reflexivity.
  f_equal. apply IH.
Qed.

Lemma deletejob_reaped s p : Forall2 reaped_from (jobs s) (jobs (snd (deletejob s p))).
Proof.
  destruct (getjobpid (jobs s) p) as [i|] eqn:G.
  - rewrite (deletejob_found s p i G). simpl. rewrite insert_as_alter.
    apply (reaped_from_write _ p i _ G). auto.
  - rewrite (deletejob_not_found s p G). apply reaped_from_same.
Qed.

Lemma reap_one_reaped s p status :
  Forall2 reaped_from (jobs s) (jobs (reap_one s p status)).
Proof.
  destruct status; simpl.
  - destruct (getjobpid (jobs s) p) as [i|] eqn:G; [|apply reaped_from_same].
    simpl. apply (reaped_from_write _ p i _ G). auto.
  - destruct (getjobpid (jobs s) p) as [i|] eqn:G; [|apply reaped_from_same].
    apply (deletejob_reaped (emit s _) p).
  - apply deletejob_reaped.
  - apply reaped_from_same.
Qed.

Lemma sigchld_handler_reaped (pending : list (Z * wstatus)) : forall s,
  Forall2 reaped_from (jobs s) (jobs (sigchld_handler s pending)).
Proof.
  induction pending as [|[p status] rest IH]; intros s; simpl.
  - apply reaped_from_same.
  - destruct (p >? 0); [|apply reaped_from_same].
    eapply reaped_from_trans; [apply reap_one_reaped | apply IH].
Qed.

(** A record written into slot [i] with a pid no other slot holds, seen
    after the reaper has run: the pid is in no other slot, and slot [i] has
    its job number or has been cleared. *)
Lemma reaped_job_number l l2 (i : nat) (x : job_t) :
  1 <= pid x -> (i < length l)%nat ->
  Forall (fun j => (pid j =? pid x) = false) l ->
  Forall2 reaped_from (<[i := x]> l) l2 ->
  (forall k j, l2 !! k = Some j -> pid j = pid x -> k = i /\ jid j = jid x)
  /\ (jid (job_at l2 i) = jid x \/ jid (job_at l2 i) = 0)
  /\ pid2jid l2 (pid x)
     = match getjobpid l2 (pid x) with Some _ => jid x | None => 0 end.
Proof.
  intros Hp Hi Hfree H2. apply Forall2_same_length_lookup in H2 as [L P].
  assert (A : forall k j, l2 !! k = Some j -> pid j = pid x -> k = i /\ jid j = jid x).
  { intros k j Hk Hj.
    destruct (lookup_lt_is_Some_2 (<[i := x]> l) k) as [y Hy].
    { rewrite L. eapply lookup_lt_Some, Hk. }
    pose proof (P k y j Hy Hk) as R.
    assert (Hyx : pid y = pid x /\ jid j = jid y).
    { destruct R as [->|(_ & [-> | ->])]; simpl in *; [auto | lia | auto]. }
    destruct Hyx as [Hyx Hjid]. destruct (decide (k = i)) as [->|Hne].
    - rewrite list_lookup_insert_eq in Hy by exact Hi. injection Hy as <-. auto.
    - rewrite list_lookup_insert_ne in Hy by congruence.
      rewrite Forall_lookup in Hfree. specialize (Hfree k y Hy). simpl in Hfree.
      apply Z.eqb_neq in Hfree. contradiction. }
  split; [exact A|]. split.
  - destruct (lookup_lt_is_Some_2 l2 i) as [j Hj].
    { rewrite <- L, length_insert. exact Hi. }
    rewrite (job_at_lookup _ _ _ Hj).
    pose proof (P i x j (list_lookup_insert_eq l i x Hi) Hj) as R.
    destruct R as [->|(_ & [-> | ->])]; simpl; auto.
  - unfold pid2jid, getjobpid. destruct (pid x <? 1); [reflexivity|].
    destruct (find_slot _ l2) as [k|] eqn:F; [|reflexivity].
    destruct (find_slot_lookup _ _ _ F) as (j & Hj & Hpj). simpl in Hpj.
    apply Z.eqb_eq in Hpj. rewrite Hj. simpl. apply (A k j Hj Hpj).
Qed.

Lemma reaped_occupied l l' :
  Forall2 reaped_from l l' ->
  (length (List.filter occupied l') <= length (List.filter occupied l))%nat.
Proof.
  induction 1 as [|x y t t' Hxy _ IH]; simpl; [lia|].
  destruct Hxy as [->|(_ & [->| ->])].
  - destruct (occupied x); simpl; lia.
  - change (occupied clearjob) with false. destruct (occupied x); simpl; lia.
  - change (occupied (set_state x ST)) with (occupied x).
    destruct (occupied x); simpl; lia.
Qed.

End ReaperFrame.

(** X14.  The reaper only stops or clears records: after any run of the
    handler the table has the same slots, and each slot is as it was, or it
    held a positive pid and is now cleared, or it held a positive pid and
    differs only in its state, which is ST.  So the handler never fills a
    slot, never changes a pid, job number or command line of a record it
    keeps, and never increases the number of occupied slots. *)
Theorem sigchld_handler_only_stops_or_clears (pending : list (Z * wstatus)) (s : shell) :
  Forall2 reaped_from (jobs s) (jobs (sigchld_handler s pending))
  /\ (length (List.filter occupied (jobs (sigchld_handler s pending)))
      <= length (List.filter occupied (jobs s)))%nat.
Proof.
  assert (H : Forall2 reaped_from (jobs s) (jobs (sigchld_handler s pending))).
  { revert s. induction pending as [|[p status] rest IH]; intros s; simpl.
    - apply reaped_from_same.
    - destruct (p >? 0); [|apply reaped_from_same].
      eapply reaped_from_trans; [apply reap_one_reaped | apply IH]. }
  split; [exact H | apply reaped_occupied, H].
Qed.

(** ** bg and fg *)

Lemma map_alter_set_state {B : Type} (f : job_t -> B) (st : jstate) (l : list job_t)
    (i : nat) :
  (forall j, f (set_state j st) = f j) ->
  map f (alter (fun j => set_state j st) i l) = map f l.
Proof.
  intros Hf. revert i. induction l as [|x t IH]; intros [|i]; simpl; try reflexivity.
  - rewrite Hf. reflexivity.
  - f_equal. apply IH.
Qed.



(** X16.  Whatever its arguments, [do_bgfg] writes nothing but state
    fields: the pids, job numbers and command lines of all slots, the number
    of slots and [nextjid] are the same after the call. *)
Theorem do_bgfg_changes_only_states (k : bool) (s : shell) (argv : list string) :
  map pid (jobs (snd (do_bgfg k s argv))) = map pid (jobs s)
  /\ map jid (jobs (snd (do_bgfg k s argv))) = map jid (jobs s)
  /\ map cmdline (jobs (snd (do_bgfg k s argv))) = map cmdline (jobs s)
  /\ nextjid (snd (do_bgfg k s argv)) = nextjid s.
Proof.
  unfold do_bgfg. destruct (do_bgfg_lookup s argv) as [s'|[i p]] eqn:L.
  - simpl. rewrite (do_bgfg_lookup_jobs _ _ _ L), (do_bgfg_lookup_nextjid _ _ _ L). auto.
  - unfold do_bgfg_resume. destruct k; simpl; [|auto].
    destruct (String.eqb (hd "" argv) "fg"); simpl.
    + rewrite !map_alter_set_state by reflexivity. auto.
    + destruct (String.eqb (hd "" argv) "bg"); simpl; [|auto].
      rewrite !map_alter_set_state by reflexivity. auto.
Qed.

(** X17.  A target that resolves -- [%] followed by text whose [atoi] is
    the job number of a slot, or text beginning with a digit whose [atoi] is
    the pid of a slot -- is resumed: SIGCONT goes to the negated pid of the
    job, [bg] sets the state of that slot to BG and prints the job line,
    [fg] sets it to FG and waits for that pid; when [kill] fails the
    interpreter exits with status 1 and the table is as it was. *)
Theorem do_bgfg_resumes_resolved_job (s : shell) (id : string) (rest : list string)
    (i : nat) :
  (Ascii.eqb (first_char id) "%" = true
   /\ getjobjid (jobs s) (atoi (str_tail id)) = Some i)
  \/ (Ascii.eqb (first_char id) "%" = false /\ isdigit (first_char id) = true
      /\ getjobpid (jobs s) (atoi id) = Some i) ->
  let j := job_at (jobs s) i in
  do_bgfg true s ("bg" :: id :: rest)
  = (Return,
     mkshell (alter (fun x => set_state x BG) i (jobs s)) (nextjid s) (verbose s)
       (out s ++ [Kill (- pid j) SIGCONT; MsgJob (jid j) (pid j) (cmdline j)]))
  /\ do_bgfg true s ("fg" :: id :: rest)
  = (WaitFg (pid j),
     mkshell (alter (fun x => set_state x FG) i (jobs s)) (nextjid s) (verbose s)
       (out s ++ [Kill (- pid j) SIGCONT]))
  /\ forall cmd, do_bgfg false s (cmd :: id :: rest)
       = (Exit 1, emit s (MsgUnixError "kill (SIGCONT) error")).
Proof.
  intros Hres j.
  assert (L : forall cmd, do_bgfg_lookup s (cmd :: id :: rest) = inr (i, pid j)
                          /\ (i < length (jobs s))%nat).
  { intros cmd. unfold do_bgfg_lookup. simpl.
    destruct Hres as [(-> & G)|(-> & -> & G)]; rewrite G.
    - split; [reflexivity|].
      unfold getjobjid in G. destruct (_ <? 1); [discriminate|].
      eapply find_slot_lt, G.
    - pose proof (getjobpid_some _ _ _ G) as (_ & _ & E). fold j in E.
      rewrite E. split; [reflexivity | eapply getjobpid_lt, G]. }
  split; [|split].
  - unfold do_bgfg. destruct (L "bg") as [-> Hi]. unfold do_bgfg_resume. simpl.
    rewrite job_at_alter by exact Hi. fold j. simpl.
    unfold emit. simpl. rewrite <- app_assoc. reflexivity.
  - unfold do_bgfg. destruct (L "fg") as [-> Hi]. unfold do_bgfg_resume. simpl.
    rewrite job_at_alter by exact Hi. fold j. reflexivity.
  - intros cmd. unfold do_bgfg. destruct (L cmd) as [-> _]. reflexivity.
Qed.

Lemma do_bgfg_resumes_resolved_job_witness :
  do_bgfg true one_stopped ["bg"; "%1"]
  = (Return,
     mkshell (mkjob 100 1 BG "sleep 9" :: replicate 15 clearjob) 2 false
       [Kill (-100) SIGCONT; MsgJob 1 100 "sleep 9"])
  /\ do_bgfg true one_stopped ["fg"; "100"]
  = (WaitFg 100,
     mkshell (mkjob 100 1 FG "sleep 9" :: replicate 15 clearjob) 2 false
       [Kill (-100) SIGCONT]).
Proof.
  split.
  - refine (proj1 (do_bgfg_resumes_resolved_job one_stopped "%1" [] 0%nat _)).
    left. split; reflexivity.
  - refine (proj1 (proj2 (do_bgfg_resumes_resolved_job one_stopped "100" [] 0%nat _))).
    right. repeat split; reflexivity.
Defined.

(** * Further properties of the parsers *)

Section Strings.

Implicit Types (a b s cur : string) (d c : ascii).

Lemma append_nil_r s : (s ++ "")%string = s.
Proof. induction s as [|x t IH]; simpl; [reflexivity | rewrite IH; reflexivity]. Qed.

Lemma append_not_empty a c b : (a ++ String c b)%string <> EmptyString.
Proof. destruct a; discriminate. Qed.

Lemma no_char_app d a b : no_char d (a ++ b) = no_char d a && no_char d b.
Proof.
  induction a as [|x t IH]; simpl; [reflexivity|].
  rewrite IH. apply andb_assoc.
Qed.

Lemma strtok_all_tokens d s : forall cur,
  no_char d cur = true ->
  Forall (fun t => t <> EmptyString /\ no_char d t = true) (strtok_all d s cur).
Proof.
  induction s as [|c r IH]; intros cur Hcur; simpl.
  - destruct (String.eqb cur "") eqn:E; [constructor|].
    apply String.eqb_neq in E. repeat constructor; assumption.
  - destruct (Ascii.eqb c d) eqn:Ec.
    + destruct (String.eqb cur "") eqn:E; [apply IH; reflexivity|].
      apply String.eqb_neq in E. constructor; [auto | apply IH; reflexivity].
    + apply IH. rewrite no_char_app, Hcur. simpl. rewrite Ec. reflexivity.
Qed.

Lemma strtok_all_split d a b : forall cur,
  strtok_all d (a ++ String d b) cur
  = (strtok_all d a cur ++ strtok_all d b "")%list.
Proof.
  induction a as [|c r IH]; intros cur; simpl.
  - rewrite Ascii.eqb_refl. destruct (String.eqb cur ""); reflexivity.
  - destruct (Ascii.eqb c d).
    + rewrite IH. destruct (String.eqb cur ""); reflexivity.
    + apply IH.
Qed.

Lemma strtok_all_no_delim d s : forall cur,
  no_char d s = true ->
  strtok_all d s cur = if String.eqb (cur ++ s) "" then [] else [(cur ++ s)%string].
Proof.
  induction s as [|c r IH]; intros cur H; simpl.
  - rewrite append_nil_r. reflexivity.
  - simpl in H. apply andb_prop in H as [Hc Hr]. apply negb_true_iff in Hc.
    rewrite Hc, (IH _ Hr), append_assoc. reflexivity.
Qed.

End Strings.

(** X18.  [parsepipe] cuts the line at every [|]: no stage it returns is
    empty or contains a [|]; the stages of a line with a [|] in it are the
    stages of what precedes followed by the stages of what follows; and a
    non-empty line without [|] is its own single stage. *)
Theorem parsepipe_cuts_at_bars (line : string) :
  Forall (fun t => t <> EmptyString /\ no_char "|" t = true) (parsepipe line)
  /\ (forall a b, line = (a ++ String "|" b)%string ->
        parsepipe line = (parsepipe a ++ parsepipe b)%list)
  /\ (no_char "|" line = true -> line <> EmptyString -> parsepipe line = [line]).
Proof.
  unfold parsepipe. split; [apply strtok_all_tokens; reflexivity|]. split.
  - intros a b ->. apply strtok_all_split.
  - intros H Hne. rewrite (strtok_all_no_delim _ _ _ H). simpl.
    apply String.eqb_neq in Hne. rewrite Hne. reflexivity.
Qed.

Lemma parsepipe_cuts_at_bars_witness :
  parsepipe ("cat | wc -l" ++ newline) = (parsepipe "cat " ++ parsepipe (" wc -l" ++ newline))%list
  /\ parsepipe ("ls -l" ++ newline) = [("ls -l" ++ newline)%string].
Proof.
  split.
  - refine (proj1 (proj2 (parsepipe_cuts_at_bars ("cat | wc -l" ++ newline))) _ _ _).
    reflexivity.
  - refine (proj2 (proj2 (parsepipe_cuts_at_bars ("ls -l" ++ newline))) _ _).
    + reflexivity.
    + discriminate.
Defined.

(** X19.  Writing stages out with [|] between them and splitting the line
    again gives the stages back, when no stage is empty or contains [|]. *)
Theorem parsepipe_join_stages (ts : list string) :
  Forall (fun t => t <> EmptyString /\ no_char "|" t = true) ts ->
  parsepipe (join_stages ts) = ts.
Proof.
  induction 1 as [|t rest [Hne Hbar] Hrest IH]; [reflexivity|].
  assert (E1 : parsepipe t = [t]).
  { unfold parsepipe. rewrite (strtok_all_no_delim _ _ _ Hbar). simpl.
    apply String.eqb_neq in Hne. rewrite Hne. reflexivity. }
  destruct rest as [|t' rest']; [exact E1|].
  change (join_stages (t :: t' :: rest'))
    with (t ++ String "|" (join_stages (t' :: rest')))%string.
  unfold parsepipe in *. rewrite strtok_all_split, E1, IH. reflexivity.
Qed.

Lemma parsepipe_join_stages_witness :
  parsepipe (join_stages ["cat "; " sort "; " wc -l"]) = ["cat "; " sort "; " wc -l"].
Proof.
  apply (parsepipe_join_stages ["cat "; " sort "; " wc -l"]).
  repeat constructor; discriminate.
Defined.

Section Tokens.

Implicit Types (buf tok rest f w : string) (st : parsed).

Lemma split_token_no_space buf : forall tok rest,
  split_token buf = (tok, rest) -> no_space tok = true.
Proof.
  induction buf as [|c r IH]; simpl; intros tok rest H.
  - injection H as <- _. reflexivity.
  - destruct (Ascii.eqb c " ") eqn:Ec.
    + injection H as <- _. reflexivity.
    + destruct (split_token r) as [t r'] eqn:E. injection H as <- _.
      simpl. rewrite Ec, (IH t r' eq_refl). reflexivity.
Qed.

Lemma parse_loop_ok (n : nat) : forall buf st,
  parsed_ok st -> parsed_ok (parse_loop n buf st).
Proof.
  induction n as [|n IH]; intros buf st Hst; [exact Hst|]. simpl.
  destruct (skip_spaces buf) as [|c r] eqn:E; [exact Hst|].
  pose proof (skip_spaces_head _ _ _ E) as Hc.
  destruct Hst as [Hargv Hfiles].
  destruct (Ascii.eqb c "2" && Ascii.eqb (first_char r) ">").
  { destruct (split_token (skip_spaces (str_tail r))) as [tok rest] eqn:T.
    apply split_token_no_space in T. apply IH. split; [exact Hargv|]. simpl.
    intros f [H|[H|H]]; [apply Hfiles; auto | apply Hfiles; auto | congruence]. }
  destruct (Ascii.eqb c "<").
  { destruct (split_token (skip_spaces r)) as [tok rest] eqn:T.
    apply split_token_no_space in T. apply IH. split; [exact Hargv|]. simpl.
    intros f [H|[H|H]]; [congruence | apply Hfiles; auto | apply Hfiles; auto]. }
  destruct (Ascii.eqb c ">").
  { destruct (split_token (skip_spaces _)) as [tok rest] eqn:T.
    apply split_token_no_space in T. apply IH. split; [exact Hargv|]. simpl.
    intros f [H|[H|H]]; [apply Hfiles; auto | congruence | apply Hfiles; auto]. }
  rewrite Hc. destruct (split_token r) as [tok rest] eqn:T.
  apply split_token_no_space in T. apply IH. split; [|exact Hfiles]. simpl.
  apply Forall_app_2; [exact Hargv|]. constructor; [|constructor].
  split; [discriminate|]. simpl. rewrite Hc, T. reflexivity.
Qed.

Lemma Forall_removelast {A : Type} (P : A -> Prop) (l : list A) :
  Forall P l -> Forall P (removelast l).
Proof.
  induction 1 as [|x t Hx Ht IH]; simpl; [constructor|].
  destruct t; [constructor | constructor; assumption].
Qed.

End Tokens.

(** X20.  Whatever the line, every argument [parseline] returns is a
    non-empty string without blank, and no file name it returns for a
    redirection contains a blank. *)
Theorem parseline_arguments_are_words (cmdline : string) :
  Forall (fun a => a <> EmptyString /\ no_space a = true) (p_argv (parseline cmdline))
  /\ (forall f,
        p_infile (parseline cmdline) = Some f \/ p_outfile (parseline cmdline) = Some f
        \/ p_errfile (parseline cmdline) = Some f ->
        no_space f = true).
Proof.
  assert (H : parsed_ok (parse_words cmdline)).
  { unfold parse_words. apply parse_loop_ok. split; [constructor|].
    simpl. intros f [H|[H|H]]; discriminate. }
  destruct H as [Hargv Hfiles]. unfold parseline.
  destruct (list.last (p_argv (parse_words cmdline))) as [a|]; simpl.
  - split; [|exact Hfiles].
    destruct (Ascii.eqb (first_char a) "&"); [apply Forall_removelast|]; exact Hargv.
  - split; [constructor | exact Hfiles].
Qed.

Section Grammar.

Implicit Types (f w rest : string) (st : parsed) (t : cmd_token).

Lemma file_name_shape f :
  file_name f = true ->
  exists c r, f = String c r /\ Ascii.eqb c " " = false /\ no_space f = true.
Proof.
  unfold file_name. intros H. apply andb_prop in H as [Hne Hsp].
  destruct f as [|c r]; [discriminate|]. exists c, r.
  split; [reflexivity|]. split; [|exact Hsp].
  simpl in Hsp. apply andb_prop in Hsp as [Hc _]. apply negb_true_iff, Hc.
Qed.

Lemma take_file_name f rest :
  file_name f = true ->
  split_token (skip_spaces (f ++ String " " rest)) = (f, rest).
Proof.
  intros H. destruct (file_name_shape f H) as (c & r & -> & Hc & Hsp).
  change (skip_spaces (String c r ++ String " " rest))
    with (if Ascii.eqb c " " then skip_spaces (r ++ String " " rest)
          else String c (r ++ String " " rest)).
  rewrite Hc. apply (split_token_word (String c r) rest Hsp).
Qed.

(** One round of the loop consumes one token. *)
Lemma parse_loop_token t rest n st :
  token_ok t = true ->
  parse_loop (S n) (render_token t ++ String " " rest) st
  = parse_loop n rest (apply_token st t).
Proof.
  intros Hok. destruct t as [w|f|f|f|f]; simpl in Hok.
  - destruct w as [|c r]; [discriminate|].
    unfold plain_word in Hok.
    apply andb_prop in Hok as [Hw Hsp]. apply andb_prop in Hw as [Hw Hgt].
    apply andb_prop in Hw as [H2 Hlt]. apply negb_true_iff in H2, Hlt, Hgt.
    pose proof Hsp as Hsp'. simpl in Hsp'.
    apply andb_prop in Hsp' as [Hc Hr]. apply negb_true_iff in Hc.
    change (render_token (TWord (String c r)) ++ String " " rest)%string
      with (String c (r ++ String " " rest)).
    cbn [parse_loop skip_spaces]. rewrite Hc.
    assert (F : Ascii.eqb c "2" && Ascii.eqb (first_char (r ++ String " " rest)) ">"
                = false).
    { destruct r as [|d r']; [|exact H2]. simpl. apply andb_false_r. }
    rewrite F, Hlt, Hgt.
    change (split_token (String c (r ++ String " " rest)))
      with (split_token (String c r ++ String " " rest)).
    rewrite (split_token_word _ _ Hsp). reflexivity.
  - change (render_token (TIn f) ++ String " " rest)%string
      with (String "<" (f ++ String " " rest)).
    cbn [parse_loop skip_spaces]. change (Ascii.eqb "<" " ") with false. cbv iota.
    change (Ascii.eqb "<" "2") with false. change (Ascii.eqb "<" "<") with true.
    cbn [andb]. rewrite (take_file_name f rest Hok). reflexivity.
  - apply andb_prop in Hok as [Hok Hgt]. apply negb_true_iff in Hgt.
    destruct (file_name_shape f Hok) as (c & r & E & _ & _).
    change (render_token (TOut f) ++ String " " rest)%string
      with (String ">" (f ++ String " " rest)).
    cbn [parse_loop skip_spaces]. change (Ascii.eqb ">" " ") with false. cbv iota.
    change (Ascii.eqb ">" "2") with false. change (Ascii.eqb ">" "<") with false.
    change (Ascii.eqb ">" ">") with true. cbn [andb].
    assert (F : Ascii.eqb (first_char (f ++ String " " rest)) ">" = false).
    { rewrite E in *. exact Hgt. }
    rewrite F. rewrite (take_file_name f rest Hok). reflexivity.
  - change (render_token (TAppend f) ++ String " " rest)%string
      with (String ">" (String ">" (f ++ String " " rest))).
    cbn [parse_loop skip_spaces]. change (Ascii.eqb ">" " ") with false. cbv iota.
    change (Ascii.eqb ">" "2") with false. change (Ascii.eqb ">" "<") with false.
    cbn [andb first_char str_tail]. change (Ascii.eqb ">" ">") with true. cbv iota.
    rewrite (take_file_name f rest Hok). reflexivity.
  - change (render_token (TErr f) ++ String " " rest)%string
      with (String "2" (String ">" (f ++ String " " rest))).
    cbn [parse_loop skip_spaces]. change (Ascii.eqb "2" " ") with false. cbv iota.
    cbn [first_char str_tail]. change (Ascii.eqb "2" "2") with true.
    change (Ascii.eqb ">" ">") with true. cbn [andb].
    rewrite (take_file_name f rest Hok). reflexivity.
Qed.

Lemma parse_loop_tokens (ts : list cmd_token) : forall n st,
  Forall (fun t => token_ok t = true) ts -> (length ts <= n)%nat ->
  parse_loop n (spaced (map render_token ts)) st = fold_left apply_token ts st.
Proof.
  induction ts as [|t rest IH]; intros n st Hts Hn.
  - destruct n; reflexivity.
  - inversion Hts as [|? ? Ht Hrest]; subst. simpl in Hn.
    destruct n as [|n]; [lia|].
    change (spaced (map render_token (t :: rest)))
      with (render_token t ++ String " " (spaced (map render_token rest)))%string.
    rewrite (parse_loop_token t _ n st Ht). apply IH; [exact Hrest | lia].
Qed.

Lemma spaced_length_any (ws : list string) :
  (length ws <= String.length (spaced ws))%nat.
Proof.
  induction ws as [|w t IH]; simpl; [lia|].
  assert (G : forall a b : string,
             (String.length b <= String.length (a ++ b))%nat).
  { intros a b. induction a; simpl; lia. }
  pose proof (G w (String " " (spaced t))) as Hl. simpl in Hl. lia.
Qed.

Lemma render_token_head t :
  token_ok t = true ->
  exists c r, render_token t = String c r /\ Ascii.eqb c " " = false.
Proof.
  destruct t as [w|f|f|f|f]; simpl; intros H; try (eexists _, _; split; reflexivity).
  destruct w as [|c r]; [discriminate|]. exists c, r. split; [reflexivity|].
  unfold plain_word in H. apply andb_prop in H as [_ Hsp]. simpl in Hsp.
  apply andb_prop in Hsp as [Hc _]. apply negb_true_iff, Hc.
Qed.

Lemma parse_words_tokens (ts : list cmd_token) :
  ts <> [] -> Forall (fun t => token_ok t = true) ts ->
  parse_words (line_of (map render_token ts)) = fold_left apply_token ts parsed_init.
Proof.
  intros Hne Hts. unfold parse_words, line_of, newline.
  rewrite replace_last_app, join_words_spaced by (destruct ts; [congruence | discriminate]).
  assert (E : skip_spaces (spaced (map render_token ts)) = spaced (map render_token ts)).
  { destruct ts as [|t rest]; [congruence|]. inversion Hts as [|? ? Ht _]; subst.
    destruct (render_token_head t Ht) as (c & r & Er & Hc).
    simpl. rewrite Er. simpl. rewrite Hc. reflexivity. }
  rewrite E. apply parse_loop_tokens; [exact Hts|].
  pose proof (spaced_length_any (map render_token ts)) as Hl.
  rewrite length_map in Hl. lia.
Qed.

End Grammar.



(** * Further properties of eval *)

Section EvalLines.

Implicit Types (ws : list string) (w : world) (s : shell).

Lemma skip_spaces_blanks n : skip_spaces (blanks n ++ " ") = EmptyString.
Proof. induction n as [|n IH]; simpl; [reflexivity | exact IH]. Qed.

Lemma no_char_blanks n : no_char "|" (blanks n) = true.
Proof. induction n as [|n IH]; simpl; [reflexivity | exact IH]. Qed.

Lemma no_char_join ws :
  Forall (fun a => no_char "|" a = true) ws -> no_char "|" (join_words ws) = true.
Proof.
  induction 1 as [|a t Ha Ht IH]; [reflexivity|].
  destruct t as [|a' t']; [exact Ha|].
  change (join_words (a :: a' :: t')) with (a ++ String " " (join_words (a' :: t')))%string.
  rewrite no_char_app, Ha. simpl. exact IH.
Qed.

Lemma parsepipe_single_line (line : string) :
  no_char "|" line = true ->
  (Z.of_nat (length (parsepipe (line ++ newline))) =? 1) = true.
Proof.
  intros H. unfold parsepipe. rewrite strtok_all_no_delim.
  - simpl. destruct (String.eqb (line ++ newline) "") eqn:E; [|reflexivity].
    apply String.eqb_eq in E. exfalso. exact (append_not_empty _ _ _ E).
  - rewrite no_char_app, H. reflexivity.
Qed.

Lemma builtin_cmd_none (k : bool) s (argv : list string) :
  is_builtin (hd "" argv) = false -> builtin_cmd k s argv = None.
Proof.
  unfold is_builtin, builtin_cmd. intros H.
  apply orb_false_elim in H as [H Hfg]. apply orb_false_elim in H as [H Hbg].
  apply orb_false_elim in H as [Hq Hj]. rewrite Hq, Hj, Hbg, Hfg. reflexivity.
Qed.

(** What [eval] does with a line of plain words whose first word is not a
    built-in, in terms of [addjob] and the result of [fork]. *)
Lemma eval_external w s ws (a : string) :
  Forall (fun x => plain_word x = true) ws ->
  Forall (fun x => no_char "|" x = true) ws ->
  list.last ws = Some a ->
  let line := line_of ws in
  let bg := Ascii.eqb (first_char a) "&" in
  let argv := if bg then removelast ws else ws in
  argv <> [] -> is_builtin (hd "" argv) = false ->
  let p := fork_ret w 0 in
  let kids := forked p [CSigRestore; CSetpgid 0 0; CExecvp argv] in
  let s1 := snd (addjob s p (if bg then BG else FG) line) in
  eval w s line
  = if bg then mkeval Return (emit s1 (MsgJob (pid2jid (jobs s1) p) p line)) kids
    else mkeval (WaitFg p) s1 kids.
Proof.
  intros Hplain Hbar Hlast line bg argv Hargv Hnb p kids s1.
  assert (Hne : ws <> []) by (intros ->; discriminate).
  unfold eval. fold line. unfold line, line_of.
  rewrite (parsepipe_single_line _ (no_char_join ws Hbar)).
  fold (line_of ws). fold line.
  assert (P : parseline line = mkparsed bg argv None None None false).
  { unfold parseline, line. rewrite (parse_words_plain ws Hne Hplain). simpl.
    rewrite Hlast. reflexivity. }
  rewrite P. simpl p_argv. simpl p_bg.
  destruct argv as [|a0 args] eqn:Eargv; [congruence|].
  rewrite (builtin_cmd_none (kill_ok w) s (a0 :: args) Hnb).
  fold p. unfold single_child_prog. simpl.
  fold kids. fold s1. destruct bg; reflexivity.
Qed.

Lemma addjob_succeeds s (p : Z) (st : jstate) (c : string) :
  1 <= p -> (exists j, j ∈ jobs s /\ pid j = 0) -> fst (addjob s p st c) = 1.
Proof.
  intros Hp (j & Hj & Hz). unfold addjob.
  destruct (p <? 1) eqn:E; [apply Z.ltb_lt in E; lia|].
  destruct (find_slot _ (jobs s)) as [i|] eqn:F.
  - destruct (verbose s); reflexivity.
  - apply find_slot_none in F. rewrite Forall_forall in F. specialize (F j Hj).
    simpl in F. apply Z.eqb_neq in F. contradiction.
Qed.

Lemma pid2jid_after_addjob s (p : Z) (st : jstate) (c : string) :
  getjobpid (jobs s) p = None -> fst (addjob s p st c) = 1 ->
  pid2jid (jobs (snd (addjob s p st c))) p = nextjid s.
Proof.
  intros Hnone Hret. destruct (addjob s p st c) as [ret s1] eqn:A.
  simpl in Hret. subst ret. simpl.
  destruct (addjob_success _ _ _ _ _ A) as (i & Hi & _ & Hj & _).
  assert (Hp : 1 <= p).
  { unfold addjob in A. destruct (p <? 1) eqn:E; [discriminate|].
    apply Z.ltb_ge, E. }
  assert (Hfree : Forall (fun j => (pid j =? p) = false) (jobs s)).
  { apply getjobpid_none in Hnone as [H|H]; [lia|]. apply find_slot_none, H. }
  unfold pid2jid. destruct (p <? 1) eqn:E; [apply Z.ltb_lt in E; lia|].
  rewrite Hj, find_slot_insert_fresh, list_lookup_insert_eq;
    [reflexivity | exact Hi | exact Hfree | apply Z.eqb_refl | exact Hi].
Qed.

End EvalLines.

(** X22.  A blank line -- any number of blanks before the line feed -- is
    ignored by [eval]: it returns to the prompt with the interpreter state
    unchanged and no child forked. *)
Theorem eval_ignores_blank_line (w : world) (s : shell) (n : nat) :
  eval w s (blanks n ++ newline) = mkeval Return s [].
Proof.
  unfold eval. rewrite (parsepipe_single_line _ (no_char_blanks n)).
  assert (P : p_argv (parseline (blanks n ++ newline)) = []).
  { unfold parseline, parse_words, newline.
    rewrite replace_last_app, skip_spaces_blanks. reflexivity. }
  rewrite P. reflexivity.
Qed.

(** X23.  A foreground launch.  For a line of plain words without [|]
    that fits the arrays of [eval] -- shorter than MAXLINE, fewer than
    MAXARGS words -- whose first word is not a built-in and whose last word
    does not begin with [&], when [fork] returns a pid of at least 1 and the
    table has an empty slot: [eval] forks one child, which restores the
    signal mask, moves to a process group of its own and executes the
    words; it registers the pid with state FG, the current [nextjid] and
    the line as typed; and it goes on to wait for that pid in [waitfg]. *)
Theorem eval_launches_foreground_job (w : world) (s : shell) (ws : list string)
    (a : string) :
  Forall (fun x => plain_word x = true) ws ->
  Forall (fun x => no_char "|" x = true) ws ->
  line_fits (line_of ws) = true ->
  list.last ws = Some a -> Ascii.eqb (first_char a) "&" = false ->
  is_builtin (hd "" ws) = false ->
  1 <= fork_ret w 0 -> (exists j, j ∈ jobs s /\ pid j = 0) ->
  let p := fork_ret w 0 in
  let r := eval w s (line_of ws) in
  ev_outcome r = WaitFg p
  /\ ev_children r = [mkchild p [CSigRestore; CSetpgid 0 0; CExecvp ws]]
  /\ (forall g, Forall (fun c => child_pgid g c = p) (ev_children r))
  /\ exists i, pid (job_at (jobs s) i) = 0
       /\ jobs (ev_shell r) = <[i := mkjob p (nextjid s) FG (line_of ws)]> (jobs s)
       /\ job_at (jobs (ev_shell r)) i = mkjob p (nextjid s) FG (line_of ws).
Proof.
  intros Hplain Hbar _ Hlast Hamp Hnb Hp Hfree p r.
  assert (Hne : ws <> []) by (intros ->; discriminate).
  pose proof (eval_external w s ws a Hplain Hbar Hlast) as E.
  cbv zeta in E. rewrite Hamp in E. specialize (E Hne Hnb).
  unfold r. rewrite E. fold p. simpl.
  assert (Hk : forked p [CSigRestore; CSetpgid 0 0; CExecvp ws]
               = [mkchild p [CSigRestore; CSetpgid 0 0; CExecvp ws]]).
  { unfold forked. destruct (p >? 0) eqn:G; [reflexivity|].
    rewrite Z.gtb_ltb in G. apply Z.ltb_ge in G. unfold p in G. lia. }
  rewrite Hk. split; [reflexivity|]. split; [reflexivity|]. split.
  - intros g. constructor; [|constructor]. reflexivity.
  - destruct (addjob s p FG (line_of ws)) as [ret s1] eqn:A.
    assert (R : ret = 1).
    { pose proof (addjob_succeeds s p FG (line_of ws) Hp Hfree) as H.
      rewrite A in H. exact H. }
    subst ret. destruct (addjob_success _ _ _ _ _ A) as (i & Hi & Hempty & Hj & _).
    exists i. simpl. split; [exact Hempty|]. split; [exact Hj|].
    rewrite Hj. unfold job_at. rewrite list_lookup_insert_eq by exact Hi. reflexivity.
Qed.

Lemma eval_launches_foreground_job_witness :
  ev_outcome (eval calm_world one_stopped (line_of ["ls"; "-l"])) = WaitFg 500
  /\ ev_children (eval calm_world one_stopped (line_of ["ls"; "-l"]))
     = [mkchild 500 [CSigRestore; CSetpgid 0 0; CExecvp ["ls"; "-l"]]].
Proof.
  destruct (eval_launches_foreground_job calm_world one_stopped ["ls"; "-l"] "-l")
    as (H1 & H2 & _).
  - repeat constructor.
  - repeat constructor.
  - vm_compute. reflexivity.
  - reflexivity.
  - reflexivity.
  - reflexivity.
  - simpl. lia.
  - exists clearjob. split; [|reflexivity].
    apply list_elem_of_further, list_elem_of_here.
  - split; [exact H1 | exact H2].
Defined.

Section Launch.

Implicit Types (ws : list string) (w : world) (s : shell).

Lemma addjob_out s (p : Z) (st : jstate) (c : string) :
  fst (addjob s p st c) = 1 ->
  out (snd (addjob s p st c))
  = (out s ++ (if verbose s then [MsgAdded (nextjid s) p c] else []))%list.
Proof.
  unfold addjob. destruct (p <? 1); [discriminate|].
  destruct (find_slot _ (jobs s)); [|discriminate]. intros _.
  destruct (verbose s); simpl; [reflexivity | rewrite app_nil_r; reflexivity].
Qed.

Lemma fgpid_nonneg l : Forall slot_ok l -> 0 <= fgpid l.
Proof.
  intros H. unfold fgpid. destruct (find_slot _ l) as [i|]; [|lia].
  destruct (l !! i) as [j|] eqn:E; simpl; [|lia].
  rewrite Forall_lookup in H. destruct (H i j E) as [(-> & _)|(Hp & _)]; lia.
Qed.

Lemma stage_child_prog_plain (n i : Z) (pl : parsed) :
  Forall (fun c => (forall f a, c <> CRedirect STDERR_FILENO f a)
                   /\ (forall p g, c <> CSetpgid p g) /\ c <> CSigRestore)
    (stage_child_prog n i pl).
Proof.
  unfold stage_child_prog. repeat apply Forall_app_2.
  - destruct (i >? 0); repeat constructor; discriminate.
  - destruct (i <? n - 1); repeat constructor; discriminate.
  - induction (seq 0 (Z.to_nat (2 * (n - 1)))); simpl; constructor;
      [repeat split; discriminate | assumption].
  - destruct (i =? 0); [|constructor].
    destruct (p_infile pl); repeat constructor; discriminate.
  - destruct (i =? n - 1); [|constructor].
    destruct (p_outfile pl); repeat constructor; discriminate.
  - repeat constructor; discriminate.
Qed.

Lemma fork_stages_pids w (n : Z) (commands : list string) : forall k,
  map c_pid (fork_stages w n k commands)
  = List.filter (fun p => p >? 0) (map (fork_ret w) (seq k (length commands))).
Proof.
  induction commands as [|c rest IH]; intros k; simpl; [reflexivity|].
  rewrite List.map_app, IH. unfold forked.
  destruct (fork_ret w k >? 0); reflexivity.
Qed.

Lemma fork_stages_plain w (n : Z) (commands : list string) : forall k,
  Forall (fun c => Forall (fun x => (forall f a, x <> CRedirect STDERR_FILENO f a)
                                    /\ (forall p g, x <> CSetpgid p g)
                                    /\ x <> CSigRestore) (c_prog c))
    (fork_stages w n k commands).
Proof.
  induction commands as [|c rest IH]; intros k; simpl; [constructor|].
  apply Forall_app_2; [|apply IH]. unfold forked.
  destruct (fork_ret w k >? 0); constructor; [|constructor].
  apply stage_child_prog_plain.
Qed.

End Launch.



(** X25.  A failed [fork].  When [fork] returns a negative value for such a
    line -- plain words, no [|], fitting the arrays of [eval] -- no child
    exists and nothing is registered: the table and [nextjid] are
    unchanged.  A foreground line goes to [waitfg] with that value, whose
    loop test is false at once in a well-formed table; a background line
    prints a job line with job number 0 and the negative pid, and so it
    does whatever the handler has done before the line is printed, since
    [pid2jid] reads no slot for a pid below 1. *)
Theorem eval_when_fork_fails (w : world) (s : shell) (ws : list string) (a : string) :
  Forall (fun x => plain_word x = true) ws ->
  Forall (fun x => no_char "|" x = true) ws ->
  line_fits (line_of ws) = true ->
  list.last ws = Some a ->
  let bg := Ascii.eqb (first_char a) "&" in
  let argv := if bg then removelast ws else ws in
  argv <> [] -> is_builtin (hd "" argv) = false ->
  fork_ret w 0 < 0 ->
  let p := fork_ret w 0 in
  let r := eval w s (line_of ws) in
  ev_children r = []
  /\ jobs (ev_shell r) = jobs s /\ nextjid (ev_shell r) = nextjid s
  /\ (bg = false ->
      ev_outcome r = WaitFg p /\ ev_shell r = s
      /\ (table_ok s -> waitfg_polls p (jobs s) = false))
  /\ (bg = true ->
      ev_outcome r = Return /\ ev_shell r = emit s (MsgJob 0 p (line_of ws))
      /\ forall pending,
           job_line s pending p (line_of ws)
           = emit (sigchld_handler s pending) (MsgJob 0 p (line_of ws))).
Proof.
  intros Hplain Hbar _ Hlast bg argv Hargv Hnb Hp p r.
  pose proof (eval_external w s ws a Hplain Hbar Hlast Hargv Hnb) as E.
  cbv zeta in E. unfold r. rewrite E. fold p. fold bg. fold argv.
  assert (Hk : forked p [CSigRestore; CSetpgid 0 0; CExecvp argv] = []).
  { unfold forked. destruct (p >? 0) eqn:G; [|reflexivity].
    apply Z.gtb_lt in G. unfold p in G. lia. }
  assert (Ha : forall st, addjob s p st (line_of ws) = (0, s)).
  { intros st. unfold addjob. destruct (p <? 1) eqn:G; [reflexivity|].
    apply Z.ltb_ge in G. unfold p in G. lia. }
  assert (Hj : pid2jid (jobs s) p = 0).
  { unfold pid2jid. destruct (p <? 1) eqn:G; [reflexivity|].
    apply Z.ltb_ge in G. unfold p in G. lia. }
  rewrite Hk, Ha. simpl. rewrite Hj. destruct bg; simpl.
  - do 3 (split; [reflexivity|]). split; [discriminate|]. intros _.
    do 2 (split; [reflexivity|]). intros pending. unfold job_line, pid2jid.
    destruct (p <? 1) eqn:G; [reflexivity|].
    apply Z.ltb_ge in G. unfold p in G. lia.
  - repeat split; try discriminate; try reflexivity.
    intros (_ & _ & Hall). unfold waitfg_polls. apply Z.eqb_neq.
    pose proof (fgpid_nonneg _ Hall). unfold p. lia.
Qed.

Lemma eval_when_fork_fails_witness :
  ev_children (eval (mkworld (fun _ => -1) (fun _ => true) true) one_stopped
                 (line_of ["ls"; "&"])) = []
  /\ ev_shell (eval (mkworld (fun _ => -1) (fun _ => true) true) one_stopped
                 (line_of ["ls"; "&"]))
     = emit one_stopped (MsgJob 0 (-1) (line_of ["ls"; "&"])).
Proof.
  destruct (eval_when_fork_fails (mkworld (fun _ => -1) (fun _ => true) true)
              one_stopped ["ls"; "&"] "&") as (H1 & _ & _ & _ & H5).
  - repeat constructor.
  - repeat constructor.
  - vm_compute. reflexivity.
  - reflexivity.
  - discriminate.
  - reflexivity.
  - simpl. lia.
  - split; [exact H1 | apply H5; reflexivity].
Defined.

(** ** Pipelines and built-ins *)

Lemma pipes_all_ok (w : world) (m : nat) :
  (forall k, (k < m)%nat -> pipe_ok w k = true) ->
  find (fun i => negb (pipe_ok w i)) (seq 0 m) = None.
Proof.
  intros H. destruct (find _ (seq 0 m)) as [k|] eqn:F; [|reflexivity].
  apply List.find_some in F as [Hin Hk]. apply List.in_seq in Hin.
  rewrite H in Hk by lia. discriminate.
Qed.

Lemma pipes_one_fails (w : world) (m k : nat) :
  (k < m)%nat -> pipe_ok w k = false ->
  exists k', find (fun i => negb (pipe_ok w i)) (seq 0 m) = Some k'.
Proof.
  intros Hk Hf. destruct (find _ (seq 0 m)) as [k'|] eqn:F; [eauto|].
  assert (H : negb (pipe_ok w k) = false).
  { apply (List.find_none _ _ F k), List.in_seq. lia. }
  rewrite Hf in H. discriminate H.
Qed.

(** X26.  A pipeline of [n >= 2] stages on a line that fits the arrays of
    [eval]: shorter than MAXLINE, fewer than MAXARGS stages, fewer than
    MAXARGS arguments in each stage.  When one of the first [n - 1]
    calls of [pipe] fails, [eval] reports it and exits with status 1 before
    any [fork].  Otherwise it forks once per stage, in order -- the children
    are those of the forks that returned a positive pid -- registers
    nothing, and returns to the prompt; and no stage restores the signal
    mask, changes its process group, or redirects its standard error. *)
Theorem pipeline_forks_every_stage (w : world) (s : shell) (cmdline : string) :
  line_fits cmdline = true ->
  (2 <= length (parsepipe cmdline))%nat ->
  let n := length (parsepipe cmdline) in
  let r := eval w s cmdline in
  ((exists k, (k < n - 1)%nat /\ pipe_ok w k = false) ->
     r = mkeval (Exit 1) (emit s (MsgPerror "pipe error")) [])
  /\ ((forall k, (k < n - 1)%nat -> pipe_ok w k = true) ->
     ev_outcome r = Return /\ ev_shell r = s
     /\ map c_pid (ev_children r)
        = List.filter (fun p => p >? 0) (map (fork_ret w) (seq 0 n))
     /\ Forall (fun c => Forall (fun x => (forall f a, x <> CRedirect STDERR_FILENO f a)
                                          /\ (forall p g, x <> CSetpgid p g)
                                          /\ x <> CSigRestore) (c_prog c))
          (ev_children r)).
Proof.
  intros _ Hn n r. unfold r, eval. fold n.
  destruct (Z.of_nat n =? 1) eqn:E; [apply Z.eqb_eq in E; unfold n in E; lia|].
  replace (Z.to_nat (Z.of_nat n - 1)) with (n - 1)%nat by lia.
  split.
  - intros (k & Hk & Hf). destruct (pipes_one_fails w (n - 1) k Hk Hf) as [k' ->].
    reflexivity.
  - intros Hall. rewrite (pipes_all_ok w (n - 1) Hall). simpl.
    split; [reflexivity|]. split; [reflexivity|]. split.
    + apply fork_stages_pids.
    + apply fork_stages_plain.
Qed.

Lemma pipeline_forks_every_stage_witness :
  map c_pid (ev_children cat_wc) = [500; 501]
  /\ eval (mkworld (fun _ => 7) (fun _ => false) true) one_stopped
       ("cat | wc -l" ++ newline)%string
     = mkeval (Exit 1) (emit one_stopped (MsgPerror "pipe error")) [].
Proof.
  assert (Hn : (2 <= length (parsepipe ("cat | wc -l" ++ newline)%string))%nat)
    by (vm_compute; lia).
  assert (Hfit : line_fits ("cat | wc -l" ++ newline)%string = true)
    by (vm_compute; reflexivity).
  split.
  - destruct (pipeline_forks_every_stage calm_world (init_shell false)
                ("cat | wc -l" ++ newline)%string Hfit Hn) as [_ H].
    destruct H as (_ & _ & Hp & _); [reflexivity|].
    unfold cat_wc. rewrite Hp. vm_compute. reflexivity.
  - refine (proj1 (pipeline_forks_every_stage (mkworld (fun _ => 7) (fun _ => false) true)
                     one_stopped ("cat | wc -l" ++ newline)%string Hfit Hn) _).
    exists 0%nat. split; [vm_compute; lia | reflexivity].
Defined.

(** X27.  The built-ins.  For a line of plain words without [|] that fits
    the arrays of [eval] and whose last word does not begin with [&]:
    [quit] exits with status 0 whatever follows it; [jobs] hands the table
    to [listjobs] and returns; [bg] and [fg] are handed, with all the
    words, to [do_bgfg]; and none of the four forks a child. *)
Theorem eval_runs_builtins (w : world) (s : shell) (ws : list string) (a : string) :
  Forall (fun x => plain_word x = true) ws ->
  Forall (fun x => no_char "|" x = true) ws ->
  line_fits (line_of ws) = true ->
  list.last ws = Some a -> Ascii.eqb (first_char a) "&" = false ->
  let r := eval w s (line_of ws) in
  (hd "" ws = "quit" -> r = mkeval (Exit 0) s [])
  /\ (hd "" ws = "jobs" -> r = mkeval Return (listjobs s) [])
  /\ (hd "" ws = "bg" \/ hd "" ws = "fg" ->
      r = mkeval (fst (do_bgfg (kill_ok w) s ws)) (snd (do_bgfg (kill_ok w) s ws)) [])
  /\ (is_builtin (hd "" ws) = true -> ev_children r = []).
Proof.
  intros Hplain Hbar _ Hlast Hamp r.
  assert (Hne : ws <> []) by (intros ->; discriminate).
  assert (E : r = match builtin_cmd (kill_ok w) s ws with
                  | Some (o, s') => mkeval o s' []
                  | None => r
                  end).
  { unfold r, eval. unfold line_of.
    rewrite (parsepipe_single_line _ (no_char_join ws Hbar)). fold (line_of ws).
    assert (P : parseline (line_of ws) = mkparsed false ws None None None false).
    { unfold parseline. rewrite (parse_words_plain ws Hne Hplain). simpl.
      rewrite Hlast, Hamp. reflexivity. }
    rewrite P. simpl p_argv. destruct ws as [|a0 args]; [congruence|].
    destruct (builtin_cmd (kill_ok w) s (a0 :: args)) as [[o s']|]; reflexivity. }
  split; [|split; [|split]].
  - intros H. rewrite E. unfold builtin_cmd. rewrite H. reflexivity.
  - intros H. rewrite E. unfold builtin_cmd. rewrite H. reflexivity.
  - intros H. rewrite E. unfold builtin_cmd.
    destruct (do_bgfg (kill_ok w) s ws) as [o s'].
    destruct H as [-> | ->]; reflexivity.
  - intros H. rewrite E. unfold builtin_cmd, is_builtin in *.
    destruct (String.eqb (hd "" ws) "quit"); [reflexivity|].
    destruct (String.eqb (hd "" ws) "jobs"); [reflexivity|].
    simpl in H. rewrite H. destruct (do_bgfg _ _ _); reflexivity.
Qed.

Lemma eval_runs_builtins_witness :
  eval calm_world one_stopped (line_of ["quit"; "now"]) = mkeval (Exit 0) one_stopped []
  /\ eval calm_world one_stopped (line_of ["jobs"])
     = mkeval Return (listjobs one_stopped) [].
Proof.
  split.
  - refine (proj1 (eval_runs_builtins calm_world one_stopped ["quit"; "now"] "now"
                     _ _ _ _ _) _); try reflexivity; repeat constructor.
  - refine (proj1 (proj2 (eval_runs_builtins calm_world one_stopped ["jobs"] "jobs"
                            _ _ _ _ _)) _); try reflexivity; repeat constructor.
Defined.

(** ** Job numbers *)

(** X28.  Job numbers stay distinct while the counter is ahead.  When the
    job numbers of the occupied slots are pairwise distinct and [nextjid] is
    larger than every job number in the table, then after any [deletejob]
    both still hold, and after any [addjob] the job numbers are still
    distinct; the counter is still ahead after the add provided it was
    below MAXJOBS before it. *)
Theorem job_numbers_distinct_while_counter_ahead (s : shell) :
  NoDup (occupied_jids (jobs s)) -> maxjid (jobs s) < nextjid s ->
  (forall p,
     NoDup (occupied_jids (jobs (snd (deletejob s p))))
     /\ maxjid (jobs (snd (deletejob s p))) < nextjid (snd (deletejob s p)))
  /\ (forall p st c,
     NoDup (occupied_jids (jobs (snd (addjob s p st c))))
     /\ (nextjid s < MAXJOBS ->
         maxjid (jobs (snd (addjob s p st c))) < nextjid (snd (addjob s p st c)))).
Proof.
  intros Hnd Hmax. split.
  - intros p. destruct (deletejob_restores_counter s p Hnd) as [H1 H2].
    split; [exact H1|].
    destruct (getjobpid (jobs s) p) as [i|] eqn:G.
    + apply H2. rewrite (deletejob_found s p i G). reflexivity.
    + rewrite (deletejob_not_found s p G). exact Hmax.
  - intros p st c. apply addjob_keeps_distinct; assumption.
Qed.

Lemma job_numbers_distinct_while_counter_ahead_witness :
  NoDup (occupied_jids (jobs (snd (addjob one_stopped 200 BG "ls"))))
  /\ NoDup (occupied_jids (jobs (snd (deletejob one_stopped 100)))).
Proof.
  destruct (job_numbers_distinct_while_counter_ahead one_stopped) as [Hd Ha].
  - vm_compute. repeat constructor. intros H. inversion H.
  - vm_compute. reflexivity.
  - split; [apply (Ha 200 BG "ls") | apply (Hd 100)].
Defined.
